(** * Omni-Con: the LSB steganographic codec

    A shallow embedding of the message codec of [omnicon_termux.py]
    ([_xor], [hide_msg], [reveal_msg] with their hand-written pixel loops)
    and of the parts of [omni-con3.py] that do not live inside the
    [stegano] library, with the properties that the specification states
    about them.

    Conventions of the embedding.
    - A Python [bytes] object is a [list Z] of values in [0, 256).
    - A Python [str] holding text ([msg], [pwd], path components) is a
      [string]: the sequence of its UTF-8 code units, the way Rocq string
      literals are written.  [str.encode()] is then the code-unit list
      and [bytes.decode()] is the strict UTF-8 validity check.
    - The [str] of ['0']/['1'] characters that the loops call [bits] is
      a [list bool]; the [str] called [cipher] is the list of its
      character codes.
    - An exception is a value of type [exn]; a function that can raise
      returns a [result].
    - The file system is a finite map from paths to image files; a
      function that writes a file returns the new map.  Writing never
      fails.  Console output ([say], the progress bars) is left out. *)

From Stdlib Require Import ZArith Lia Ascii String.
From stdpp Require Import base list strings gmap.

Local Open Scope Z_scope.

(** ** SHA-256 ([hashlib.sha256], FIPS 180-4) *)

Module Sha256.

Definition mask32 : Z := 0xFFFFFFFF.
Definition add32 (a b : Z) : Z := Z.land (a + b) mask32.
Definition rotr (n x : Z) : Z :=
  Z.lor (Z.shiftr x n) (Z.land (Z.shiftl x (32 - n)) mask32).
Definition not32 (x : Z) : Z := Z.lxor x mask32.

Definition Ch (x y z : Z) : Z := Z.lxor (Z.land x y) (Z.land (not32 x) z).
Definition Maj (x y z : Z) : Z :=
  Z.lxor (Z.lxor (Z.land x y) (Z.land x z)) (Z.land y z).
Definition bsig0 (x : Z) : Z := Z.lxor (Z.lxor (rotr 2 x) (rotr 13 x)) (rotr 22 x).
Definition bsig1 (x : Z) : Z := Z.lxor (Z.lxor (rotr 6 x) (rotr 11 x)) (rotr 25 x).
Definition ssig0 (x : Z) : Z := Z.lxor (Z.lxor (rotr 7 x) (rotr 18 x)) (Z.shiftr x 3).
Definition ssig1 (x : Z) : Z := Z.lxor (Z.lxor (rotr 17 x) (rotr 19 x)) (Z.shiftr x 10).

(** The constants are defined the way the standard derives them: the first
    32 bits of the fractional parts of the cube roots (round constants) and
    of the square roots (initial hash value) of the first primes. *)
Definition primes : list Z :=
  [2; 3; 5; 7; 11; 13; 17; 19; 23; 29; 31; 37; 41; 43; 47; 53;
   59; 61; 67; 71; 73; 79; 83; 89; 97; 101; 103; 107; 109; 113; 127; 131;
   137; 139; 149; 151; 157; 163; 167; 173; 179; 181; 191; 193; 197; 199;
   211; 223; 227; 229; 233; 239; 241; 251; 257; 263; 269; 271; 277; 281;
   283; 293; 307; 311].

(** The integer cube root of a number below [2 ^ 123], one bit at a time. *)
Definition cbrt (v : Z) : Z :=
  foldl (fun r k =>
           let r' := r + 2 ^ Z.of_nat k in
           if r' * r' * r' <=? v then r' else r)
        0 (rev (seq 0 41)).

Definition K : list Z :=
  Eval vm_compute in map (fun p => Z.land (cbrt (p * 2 ^ 96)) mask32) primes.

(** The eight working variables / chaining values. *)
Record regs : Type := Regs
  { ra : Z; rb : Z; rc : Z; rd : Z; re : Z; rf : Z; rg : Z; rh : Z }.

Definition frac_sqrt (p : Z) : Z := Z.land (Z.sqrt (p * 2 ^ 64)) mask32.

Definition H0 : regs :=
  Eval vm_compute in
  Regs (frac_sqrt 2) (frac_sqrt 3) (frac_sqrt 5) (frac_sqrt 7)
       (frac_sqrt 11) (frac_sqrt 13) (frac_sqrt 17) (frac_sqrt 19).

(** Padding: a single 1 bit, zeros up to 56 mod 64, the bit length on
    eight big-endian bytes. *)
Definition be_bytes (n : nat) (v : Z) : list Z :=
  map (fun i => Z.land (Z.shiftr v (8 * Z.of_nat i)) 0xFF) (rev (seq 0 n)).

Definition pad (m : list Z) : list Z :=
  let len := Z.of_nat (length m) in
  let zeros := Z.to_nat ((55 - len) mod 64) in
  m ++ [0x80] ++ replicate zeros 0 ++ be_bytes 8 (8 * len).

Definition be_word (b0 b1 b2 b3 : Z) : Z :=
  Z.lor (Z.lor (Z.lor (Z.shiftl b0 24) (Z.shiftl b1 16)) (Z.shiftl b2 8)) b3.

Fixpoint words (bs : list Z) : list Z :=
  match bs with
  | b0 :: b1 :: b2 :: b3 :: rest => be_word b0 b1 b2 b3 :: words rest
  | _ => []
  end.

(** Message schedule, kept newest-first while it is extended. *)
Fixpoint extend (n : nat) (rw : list Z) : list Z :=
  match n with
  | O => rw
  | S n' =>
      let w2 := rw !!! 1%nat in
      let w7 := rw !!! 6%nat in
      let w15 := rw !!! 14%nat in
      let w16 := rw !!! 15%nat in
      extend n' (add32 (add32 (add32 (ssig1 w2) w7) (ssig0 w15)) w16 :: rw)
  end.

Definition schedule (block : list Z) : list Z := rev (extend 48 (rev block)).

Definition round (s : regs) (kw : Z * Z) : regs :=
  let t1 := add32 (add32 (add32 (add32 (rh s) (bsig1 (re s)))
                                (Ch (re s) (rf s) (rg s))) kw.1) kw.2 in
  let t2 := add32 (bsig0 (ra s)) (Maj (ra s) (rb s) (rc s)) in
  Regs (add32 t1 t2) (ra s) (rb s) (rc s) (add32 (rd s) t1) (re s) (rf s) (rg s).

Definition compress (h : regs) (block : list Z) : regs :=
  let s := foldl round h (zip K (schedule block)) in
  Regs (add32 (ra h) (ra s)) (add32 (rb h) (rb s))
       (add32 (rc h) (rc s)) (add32 (rd h) (rd s))
       (add32 (re h) (re s)) (add32 (rf h) (rf s))
       (add32 (rg h) (rg s)) (add32 (rh h) (rh s)).

(** The [count] 16-word blocks of the padded message, in order. *)
Fixpoint blocks (count : nat) (ws : list Z) (h : regs) : regs :=
  match count with
  | O => h
  | S count' => blocks count' (drop 16 ws) (compress h (take 16 ws))
  end.

Definition digest (m : list Z) : list Z :=
  let ws := words (pad m) in
  let h := blocks (length ws `div` 16) ws H0 in
  be_bytes 4 (ra h) ++ be_bytes 4 (rb h) ++ be_bytes 4 (rc h) ++
  be_bytes 4 (rd h) ++ be_bytes 4 (re h) ++ be_bytes 4 (rf h) ++
  be_bytes 4 (rg h) ++ be_bytes 4 (rh h).

Definition digest_size : nat := 32.

End Sha256.

(** ** Text and bytes *)

(** [str.encode()]: the UTF-8 code units of a text. *)
Definition encode (s : string) : list Z :=
  map (fun a => Z.of_N (N_of_ascii a)) (list_ascii_of_string s).

Definition str_of_bytes (bs : list Z) : string :=
  string_of_list_ascii (map (fun b => ascii_of_N (Z.to_N b)) bs).

Definition cont (b : Z) : bool := (0x80 <=? b) && (b <=? 0xBF).
Definition between (lo b hi : Z) : bool := (lo <=? b) && (b <=? hi).

(** The well-formed byte sequences of UTF-8 (Unicode, table 3-7), which is
    what the strict decoder behind [bytes.decode()] accepts: no overlong
    forms, no surrogates, nothing above U+10FFFF, no truncated sequence. *)
Fixpoint utf8_valid (bs : list Z) : bool :=
  match bs with
  | [] => true
  | b0 :: r0 =>
      if between 0 b0 0x7F then utf8_valid r0
      else match r0 with
      | [] => false
      | b1 :: r1 =>
          if between 0xC2 b0 0xDF then cont b1 && utf8_valid r1
          else match r1 with
          | [] => false
          | b2 :: r2 =>
              if between 0xE0 b0 0xEF then
                (if b0 =? 0xE0 then between 0xA0 b1 0xBF
                 else if b0 =? 0xED then between 0x80 b1 0x9F
                 else cont b1) && cont b2 && utf8_valid r2
              else match r2 with
              | [] => false
              | b3 :: r3 =>
                  if between 0xF0 b0 0xF4 then
                    (if b0 =? 0xF0 then between 0x90 b1 0xBF
                     else if b0 =? 0xF4 then between 0x80 b1 0x8F
                     else cont b1) && cont b2 && cont b3 && utf8_valid r3
                  else false
              end
          end
      end
  end.

(** ** Exceptions *)

(** [DecryptionFailed e] stands for [ValueError(f"Decryption failed: {e}")],
    raised from the [except Exception as e] clause of [reveal_msg]. *)
Inductive exn : Type :=
  | ValueError (msg : string)
  | binascii_Error (msg : string)
  | UnicodeDecodeError
  | FileNotFoundError
  | DecryptionFailed (cause : exn).

Inductive result (A : Type) : Type :=
  | Ok (a : A)
  | Raise (e : exn).
Arguments Ok {A} a.
Arguments Raise {A} e.

Definition bind {A B} (r : result A) (k : A -> result B) : result B :=
  match r with
  | Ok a => k a
  | Raise e => Raise e
  end.

(** [bytes.decode()] *)
Definition decode (bs : list Z) : result string :=
  if utf8_valid bs then Ok (str_of_bytes bs) else Raise UnicodeDecodeError.

(** ** The XOR stream *)

(** [zip(data, itertools.cycle(key_b))]: [cycle] hands out the elements of
    its argument once, saving them, then replays the saved copy for ever;
    [zip] stops with [data], or at once when there is nothing to replay. *)
Fixpoint zip_cycle (data cur saved : list Z) : list (Z * Z) :=
  match data with
  | [] => []
  | b :: data' =>
      match cur with
      | k :: cur' => (b, k) :: zip_cycle data' cur' saved
      | [] =>
          match saved with
          | k :: cur' => (b, k) :: zip_cycle data' cur' saved
          | [] => []
          end
      end
  end.

(** [b ^ k] for one pair of the [zip]. *)
Definition xor_pair (bk : Z * Z) : Z := Z.lxor bk.1 bk.2.

Definition _xor (data : list Z) (key : string) : list Z :=
  let key_b := Sha256.digest (encode key) in
  map xor_pair (zip_cycle data key_b key_b).

(** ** Base64 ([base64.b64encode], [base64.b64decode]) *)

Definition b64_alphabet : list Z :=
  encode "ABCDEFGHIJKLMNOPQRSTUVWXYZabcdefghijklmnopqrstuvwxyz0123456789+/".

Definition b2a (v : Z) : Z := b64_alphabet !!! Z.to_nat v.
Definition PAD : Z := 61.

(** The four 6-bit groups of a 24-bit group (RFC 4648); a missing byte
    counts as zero bits. *)
Definition s0 (b0 : Z) : Z := Z.shiftr b0 2.
Definition s1 (b0 b1 : Z) : Z := Z.lor (Z.shiftl (Z.land b0 3) 4) (Z.shiftr b1 4).
Definition s2 (b1 b2 : Z) : Z := Z.lor (Z.shiftl (Z.land b1 15) 2) (Z.shiftr b2 6).
Definition s3 (b2 : Z) : Z := Z.land b2 63.

Fixpoint b64encode (bs : list Z) : list Z :=
  match bs with
  | [] => []
  | [b0] => [b2a (s0 b0); b2a (s1 b0 0); PAD; PAD]
  | [b0; b1] => [b2a (s0 b0); b2a (s1 b0 b1); b2a (s2 b1 0); PAD]
  | b0 :: b1 :: b2 :: rest =>
      b2a (s0 b0) :: b2a (s1 b0 b1) :: b2a (s2 b1 b2) :: b2a (s3 b2) ::
      b64encode rest
  end.

(** The inverse table of the decoder: [None] for a character outside the
    alphabet. *)
Definition a2b (c : Z) : option Z :=
  if between 65 c 90 then Some (c - 65)
  else if between 97 c 122 then Some (c - 71)
  else if between 48 c 57 then Some (c + 4)
  else if c =? 43 then Some 62
  else if c =? 47 then Some 63
  else None.

Definition emit (b : Z) (r : result (list Z)) : result (list Z) :=
  bind r (fun l => Ok (b :: l)).

(** [binascii.a2b_base64] without [strict_mode]: characters outside the
    alphabet are skipped, a complete pad sequence ends the parse, and a
    quad left open at the end of the input is an error (whose message
    leaves out the count of data characters). *)
Fixpoint a2b_base64 (s : list Z) (quad_pos : nat) (leftchar : Z) (pads : nat)
  : result (list Z) :=
  match s with
  | [] =>
      match quad_pos with
      | 0%nat => Ok []
      | 1%nat => Raise (binascii_Error "Invalid base64-encoded string: number of data characters cannot be 1 more than a multiple of 4")
      | _ => Raise (binascii_Error "Incorrect padding")
      end
  | c :: s' =>
      if c =? PAD then
        if (2 <=? quad_pos)%nat then
          if (4 <=? quad_pos + S pads)%nat then Ok []
          else a2b_base64 s' quad_pos leftchar (S pads)
        else a2b_base64 s' quad_pos leftchar pads
      else
        match a2b c with
        | None => a2b_base64 s' quad_pos leftchar pads
        | Some this_ch =>
            match quad_pos with
            | 0%nat => a2b_base64 s' 1%nat this_ch 0%nat
            | 1%nat =>
                emit (Z.lor (Z.shiftl leftchar 2) (Z.shiftr this_ch 4))
                     (a2b_base64 s' 2%nat (Z.land this_ch 15) 0%nat)
            | 2%nat =>
                emit (Z.lor (Z.shiftl leftchar 4) (Z.shiftr this_ch 2))
                     (a2b_base64 s' 3%nat (Z.land this_ch 3) 0%nat)
            | _ =>
                emit (Z.lor (Z.shiftl leftchar 6) this_ch)
                     (a2b_base64 s' 0%nat 0 0%nat)
            end
        end
  end.

(** [base64.b64decode] of a [str]: the text is first encoded as ASCII. *)
Definition b64decode (s : list Z) : result (list Z) :=
  if forallb (fun c => c <? 128) s then a2b_base64 s 0%nat 0 0%nat
  else Raise (ValueError "string argument should contain only ASCII characters").

(** ** Paths ([pathlib.PurePath]) *)

(** A path after parsing: the directory part and the final component. *)
Record Path : Type := mkPath { parent : string; name : string }.

Global Instance Path_eq_dec : EqDecision Path.
Proof. solve_decision. Defined.

Global Instance Path_countable : Countable Path :=
  inj_countable' (fun p => (parent p, name p)) (fun q => mkPath q.1 q.2)
                 (fun p => match p with mkPath _ _ => eq_refl end).

(** [str.rfind(c)]: the last index of [c], or -1. *)
Fixpoint rfind_from (c : ascii) (l : list ascii) (i : Z) (found : Z) : Z :=
  match l with
  | [] => found
  | a :: l' => rfind_from c l' (i + 1) (if Ascii.eqb a c then i else found)
  end.
Definition rfind (c : ascii) (l : list ascii) : Z := rfind_from c l 0 (-1).

Definition dot : ascii := "."%char.

(** [PurePath.suffix] *)
Definition suffix (p : Path) : string :=
  let n := list_ascii_of_string (name p) in
  let i := rfind dot n in
  if (0 <? i) && (i <? Z.of_nat (length n) - 1)
  then string_of_list_ascii (drop (Z.to_nat i) n)
  else "".

(** [PurePath.with_suffix(suffix)], for a suffix that starts with a dot.
    The message of the error leaves out the [repr] of the path. *)
Definition with_suffix (p : Path) (suf : string) : result Path :=
  if decide (name p = "") then Raise (ValueError "path has an empty name")
  else
    let old_suffix := suffix p in
    let n := list_ascii_of_string (name p) in
    if decide (old_suffix = "")
    then Ok (mkPath (parent p) (name p +:+ suf))
    else Ok (mkPath (parent p)
               (string_of_list_ascii
                  (take (length n - String.length old_suffix) n) +:+ suf)).

Fixpoint lstrip (c : ascii) (l : list ascii) : list ascii :=
  match l with
  | a :: l' => if Ascii.eqb a c then lstrip c l' else l
  | [] => []
  end.

(** [str.lower()].  Only the letters A-Z are mapped: every other character
    that [str.lower()] changes is sent outside ASCII or to a letter that no
    member of [IMAGE_EXTS] contains, so membership in [IMAGE_EXTS] is
    decided alike. *)
Definition lower_char (a : ascii) : ascii :=
  let n := N_of_ascii a in
  if ((65 <=? n) && (n <=? 90))%N then ascii_of_N (n + 32) else a.

Definition IMAGE_EXTS : gset string := {[ "png"; "jpg"; "jpeg"; "bmp"; "webp" ]}.

(** [p.suffix.lstrip(".").lower() in IMAGE_EXTS] *)
Definition ext (p : Path) : string :=
  string_of_list_ascii
    (map lower_char (lstrip dot (list_ascii_of_string (suffix p)))).
Definition image_ext (p : Path) : bool := bool_decide (ext p ∈ IMAGE_EXTS).

(** ** Images and the file store *)

Definition pixel : Type := Z * Z * Z.

(** An image in mode RGB: [pixels] holds the rows one after the other. *)
Record image : Type := Image
  { width : nat; height : nat; pixels : list pixel }.

Definition wf_image (im : image) : Prop :=
  length (pixels im) = (width im * height im)%nat.

Inductive format : Type := PNG | JPEG | BMP | WEBP.

(** A stored image file: the encoding it was written in and the RGB raster
    that [Image.open(...).convert("RGB")] reads back from it. *)
Record file : Type := File { file_format : format; raster : image }.

Definition Image_open (p : Path) (d : gmap Path file) : result image :=
  match d !! p with
  | Some f => Ok (raster f)
  | None => Raise FileNotFoundError
  end.

(** [pixels[x, y]] and [pixels[x, y] = v].  The loops only use [x < width]
    and [y < height], positions that a well-formed raster ([wf_image]) has;
    outside the raster, where the pixel access of PIL raises, the read
    gives a default and the write does nothing. *)
Definition getpixel (w : nat) (px : list pixel) (x y : nat) : pixel :=
  px !!! (y * w + x)%nat.
Definition putpixel (w : nat) (px : list pixel) (x y : nat) (v : pixel)
  : list pixel :=
  <[(y * w + x)%nat := v]> px.

(** ** The bit stream *)

(** [format(c, '08b')] for a character code below 256: eight binary digits,
    most significant first. *)
Definition format_08b (c : Z) : list bool :=
  map (Z.testbit c) [7; 6; 5; 4; 3; 2; 1; 0].

(** [int(byte, 2)] *)
Definition int2 (byte : list bool) : Z :=
  foldl (fun acc (b : bool) => 2 * acc + Z.b2z b) 0 byte.

(** ** [hide_msg] (mobile variant) *)

(** One of the three guarded assignments of the loop body:
    [if bit_idx < len(bits): c = (c & ~1) | int(bits[bit_idx]); bit_idx += 1] *)
Definition set_lsb (bits : list bool) (c : Z) (bit_idx : nat) : Z * nat :=
  if (bit_idx <? length bits)%nat
  then (Z.lor (Z.land c (Z.lnot 1)) (Z.b2z (bits !!! bit_idx)), S bit_idx)
  else (c, bit_idx).

(** The body of the inner loop for the pixel just read: the three guarded
    assignments, in the order R, G, B. *)
Definition hide_pixel (bits : list bool) (p : pixel) (bit_idx : nat)
  : pixel * nat :=
  let '(r, g, b) := p in
  let '(r, bit_idx) := set_lsb bits r bit_idx in
  let '(g, bit_idx) := set_lsb bits g bit_idx in
  let '(b, bit_idx) := set_lsb bits b bit_idx in
  ((r, g, b), bit_idx).

(** The inner [for x in range(width)] loop; its [break] leaves this loop
    only. The state is the pixel buffer and [bit_idx]. *)
Fixpoint hide_row (bits : list bool) (w y : nat) (xs : list nat)
    (st : list pixel * nat) : list pixel * nat :=
  match xs with
  | [] => st
  | x :: xs' =>
      if (length bits <=? st.2)%nat then st
      else
        let '(p, bit_idx) := hide_pixel bits (getpixel w st.1 x y) st.2 in
        hide_row bits w y xs' (putpixel w st.1 x y p, bit_idx)
  end.

(** The outer [for y in range(height)] loop. *)
Definition hide_rows (bits : list bool) (w h : nat) (px : list pixel)
  : list pixel * nat :=
  foldl (fun st y => hide_row bits w y (seq 0 w) st) (px, 0%nat) (seq 0 h).

(** [base64.b64encode(_xor(msg.encode(), pwd)).decode()] *)
Definition encrypt (msg pwd : string) : list Z :=
  b64encode (_xor (encode msg) pwd).

(** [''.join(format(ord(c), '08b') for c in cipher + '\0')] *)
Definition frame_bits (cipher : list Z) : list bool :=
  flat_map format_08b (cipher ++ [0]).

(** The output path after the extension check. *)
Definition out_path (img_out : Path) : result Path :=
  if image_ext img_out then Ok img_out else with_suffix img_out ".png".

Definition hide_msg (img_in img_out : Path) (msg pwd : string)
    (d : gmap Path file) : result unit * gmap Path file :=
  if negb (image_ext img_in) then
    (Raise (ValueError "Source must be an image (png, jpg, jpeg, bmp, webp)."), d)
  else if decide (msg = "") then
    (Raise (ValueError "Message cannot be empty."), d)
  else if decide (pwd = "") then
    (Raise (ValueError "Password cannot be empty."), d)
  else
    match out_path img_out with
    | Raise e => (Raise e, d)
    | Ok img_out =>
        let cipher := encrypt msg pwd in
        let bits := frame_bits cipher in
        match Image_open img_in d with
        | Raise e => (Raise e, d)
        | Ok img =>
            let max_bits := (width img * height img * 3)%nat in
            if (max_bits <? length bits)%nat then
              (Raise (ValueError "Message too large for image capacity."), d)
            else
              let px := (hide_rows bits (width img) (height img) (pixels img)).1 in
              (Ok tt, <[img_out := File PNG (Image (width img) (height img) px)]> d)
        end
    end.

(** ** [reveal_msg] (mobile variant) *)

(** [str(c & 1)], as a bit. *)
Definition lsb (c : Z) : bool := Z.land c 1 =? 1.

(** [len(bits) >= 8 and ''.join(bits[-8:]) == '00000000'] *)
Definition terminated (bits : list bool) : bool :=
  (8 <=? length bits)%nat && forallb negb (drop (length bits - 8) bits).

(** The inner loop; the flag tells whether it was left by [break]. *)
Fixpoint reveal_row (w : nat) (px : list pixel) (y : nat) (xs : list nat)
    (bits : list bool) : list bool * bool :=
  match xs with
  | [] => (bits, false)
  | x :: xs' =>
      let '(r, g, b) := getpixel w px x y in
      let bits := bits ++ [lsb r; lsb g; lsb b] in
      if terminated bits then (take (length bits - 8) bits, true)
      else reveal_row w px y xs' bits
  end.

(** The outer loop with its [else: continue] / [break] tail. *)
Fixpoint reveal_rows (w : nat) (px : list pixel) (ys : list nat)
    (bits : list bool) : list bool :=
  match ys with
  | [] => bits
  | y :: ys' =>
      let '(bits, broke) := reveal_row w px y (seq 0 w) bits in
      if broke then bits else reveal_rows w px ys' bits
  end.

(** The conversion of [bits] to [chars]: whole groups of eight only. *)
Fixpoint chars_of_bits (bits : list bool) : list Z :=
  match bits with
  | b7 :: b6 :: b5 :: b4 :: b3 :: b2 :: b1 :: b0 :: rest =>
      int2 [b7; b6; b5; b4; b3; b2; b1; b0] :: chars_of_bits rest
  | _ => []
  end.

(** The text that the two loops read out of an image. *)
Definition extract (img : image) : list Z :=
  chars_of_bits (reveal_rows (width img) (pixels img) (seq 0 (height img)) []).

(** [_xor(base64.b64decode(cipher), pwd).decode()] *)
Definition decrypt (cipher : list Z) (pwd : string) : result string :=
  bind (b64decode cipher) (fun data => decode (_xor data pwd)).

(** The [try] / [except Exception as e] around it. *)
Definition try_decrypt (cipher : list Z) (pwd : string) : result string :=
  match decrypt cipher pwd with
  | Ok s => Ok s
  | Raise e => Raise (DecryptionFailed e)
  end.

Definition reveal_msg (img : Path) (pwd : string) (d : gmap Path file)
  : result string :=
  if negb (image_ext img) then
    Raise (ValueError "Input must be an image (png, jpg, jpeg, bmp, webp).")
  else if decide (pwd = "") then
    Raise (ValueError "Password cannot be empty.")
  else
    match Image_open img d with
    | Raise e => Raise e
    | Ok img => try_decrypt (extract img) pwd
    end.

(** ** The desktop variant

    [omni-con3.py] leaves the pixel work to the [stegano] library, which is
    not part of this repository: [_lsb.hide] and [_lsb.reveal] (with the
    [eratosthenes] generator) are parameters here.  [_lsb.reveal] returns
    [None] when it finds nothing. *)

Module Desktop.
Section Stegano.

Variable lsb_hide : Path -> list Z -> gmap Path file -> result image.
Variable lsb_reveal : Path -> gmap Path file -> result (option (list Z)).

(** [img_out.suffix.lower()] *)
Definition lower_suffix (p : Path) : string :=
  string_of_list_ascii (map lower_char (list_ascii_of_string (suffix p))).

Definition hide_msg (img_in img_out : Path) (msg pwd : string)
    (d : gmap Path file) : result unit * gmap Path file :=
  if negb (image_ext img_in) then
    (Raise (ValueError "Source must be an image (png, jpg, jpeg, bmp, webp)."), d)
  else if decide (msg = "") then
    (Raise (ValueError "Message to hide cannot be empty."), d)
  else if decide (pwd = "") then
    (Raise (ValueError "Password cannot be empty."), d)
  else
    match out_path img_out with
    | Raise e => (Raise e, d)
    | Ok img_out =>
        let cipher := encrypt msg pwd in
        match lsb_hide img_in cipher d with
        | Raise e => (Raise e, d)
        | Ok secret =>
            let suf := lower_suffix img_out in
            if decide (suf = ".webp") then
              (Ok tt, <[img_out := File WEBP secret]> d)
            else if decide (suf = ".png") then
              (Ok tt, <[img_out := File PNG secret]> d)
            else if decide (suf = ".bmp") then
              (Ok tt, <[img_out := File BMP secret]> d)
            else
              match with_suffix img_out ".png" with
              | Raise e => (Raise e, d)
              | Ok img_out => (Ok tt, <[img_out := File PNG secret]> d)
              end
        end
    end.

Definition reveal_msg (img : Path) (pwd : string) (d : gmap Path file)
  : result string :=
  if negb (image_ext img) then
    Raise (ValueError "Input must be an image (png, jpg, jpeg, bmp, webp).")
  else if decide (pwd = "") then
    Raise (ValueError "Password cannot be empty.")
  else
    match
      bind (lsb_reveal img d) (fun cipher =>
        match cipher with
        | None => Raise (ValueError "No hidden data found in image!")
        | Some cipher => decrypt cipher pwd
        end)
    with
    | Ok s => Ok s
    | Raise e => Raise (DecryptionFailed e)
    end.

End Stegano.
End Desktop.

(** ** The extractor as the specification words it

    The specification's extractor reads the least-significant bits in
    raster order (R, G, B within a pixel), looks at the collected bits in
    groups of eight, stops at the first group that is zero and returns the
    characters before it; with no such group it reports that nothing is
    hidden ([None]).  It is here to be compared with [extract]. *)

Definition lsb3 (p : pixel) : list bool := [lsb p.1.1; lsb p.1.2; lsb p.2].

Definition lsb_stream (img : image) : list bool := flat_map lsb3 (pixels img).

Fixpoint spec_chars (bits : list bool) : option (list Z) :=
  match bits with
  | b7 :: b6 :: b5 :: b4 :: b3 :: b2 :: b1 :: b0 :: rest =>
      let c := int2 [b7; b6; b5; b4; b3; b2; b1; b0] in
      if c =? 0 then Some [] else cons c <$> spec_chars rest
  | _ => None
  end.

Definition spec_extract (img : image) : option (list Z) :=
  spec_chars (lsb_stream img).

(** ** What embedding does to one channel

    The channel at position [j] of the raster (three positions to a pixel)
    after [bits] has been embedded; used to state the loop invariant. *)

Definition embed_channel (bits : list bool) (j : nat) (c : Z) : Z :=
  if (j <? length bits)%nat
  then Z.lor (Z.land c (Z.lnot 1)) (Z.b2z (bits !!! j))
  else c.

Definition embed_pixel (bits : list bool) (i : nat) (p : pixel) : pixel :=
  (embed_channel bits (3 * i) p.1.1,
   embed_channel bits (3 * i + 1) p.1.2,
   embed_channel bits (3 * i + 2) p.2).

(** The buffer once the first [n] pixels have been visited. *)
Definition embed_upto (bits : list bool) (n : nat) (px : list pixel)
  : list pixel :=
  imap (fun i p => if (i <? n)%nat then embed_pixel bits i p else p) px.

(** ** Checks that the proofs run over all bytes *)

Definition is_byte (b : Z) : Prop := 0 <= b < 256.

Definition below (n : nat) : list Z := map Z.of_nat (seq 0 n).

Definition in64 (v : Z) : bool := (0 <=? v) && (v <? 64).

Definition sextet_ok (v : Z) : bool :=
  negb (b2a v =? PAD) && (0 <? b2a v) && (b2a v <? 128) &&
  match a2b (b2a v) with Some v' => v' =? v | None => false end.

Definition quad01_ok (b0 b1 : Z) : bool :=
  in64 (s0 b0) && in64 (s1 b0 b1) &&
  (Z.lor (Z.shiftl (s0 b0) 2) (Z.shiftr (s1 b0 b1) 4) =? b0) &&
  (Z.land (s1 b0 b1) 15 =? Z.shiftr b1 4).

Definition quad12_ok (b1 b2 : Z) : bool :=
  in64 (s2 b1 b2) && in64 (s3 b2) &&
  (Z.lor (Z.shiftl (Z.shiftr b1 4) 4) (Z.shiftr (s2 b1 b2) 2) =? b1) &&
  (Z.lor (Z.shiftl (Z.land (s2 b1 b2) 3) 6) (s3 b2) =? b2).

Definition byte_bits_ok (c : Z) : bool := int2 (format_08b c) =? c.

Definition xor_ok (a b : Z) : bool :=
  (0 <=? Z.lxor a b) && (Z.lxor a b <? 256).

(** ** Sample inputs for the examples *)

Definition flat_image (w h : nat) (p : pixel) : image :=
  Image w h (replicate (w * h) p).
Definition sample_in : Path := mkPath "/sdcard/Pictures" "cat.png".
Definition sample_out : Path := mkPath "/sdcard/Pictures" "stego.jpg".
Definition sample_store (im : image) : gmap Path file :=
  {[ sample_in := File PNG im ]}.

Definition sample_png : Path := mkPath "/sdcard/Pictures" "stego.png".

Definition hex_digit (v : Z) : ascii :=
  if v <? 10 then ascii_of_N (Z.to_N (48 + v)) else ascii_of_N (Z.to_N (87 + v)).
Definition hexdigest (bs : list Z) : string :=
  string_of_list_ascii
    (flat_map (fun b => [hex_digit (Z.shiftr b 4); hex_digit (Z.land b 15)]) bs).


(** * Further definitions

    ** The extraction loop as one pass

    The two nested loops of [reveal_msg] over [y] and [x], with the [break]
    out of both, read as one pass over the raster: after every pixel the
    last eight bits are tested, and at the first hit the pass stops with
    those eight bits removed. *)
Fixpoint scan (ps : list pixel) (bits : list bool) : list bool * bool :=
  match ps with
  | [] => (bits, false)
  | p :: ps' =>
      let bits' := bits ++ lsb3 p in
      if terminated bits' then (take (length bits' - 8) bits', true)
      else scan ps' bits'
  end.

(** ** Bit patterns of cipher characters

    Checks on the eight binary digits of a character, run over the base64
    alphabet: a one among the digits 1 and 2, a one among the digits 3 to 7,
    a one among the last [m] digits. *)
Definition has_one (l : list bool) : bool := existsb id l.
Definition char_high (c : Z) : bool := has_one (take 2 (drop 1 (format_08b c))).
Definition char_low (c : Z) : bool := has_one (drop 3 (format_08b c)).
Definition low_one (m : nat) (c : Z) : bool :=
  has_one (drop (8 - m) (format_08b c)).
Definition sextet_bits_ok (v : Z) : bool :=
  char_high (b2a v) && char_low (b2a v).
Definition low_bits_ok (c : Z) : bool :=
  forallb (fun m => (c mod 2 ^ Z.of_nat m =? 0) || low_one m c)
          [1%nat; 2%nat; 3%nat].

(** What [(c & ~1) | bit] does to a byte [c]. *)
Definition near_ok (c : Z) : bool :=
  forallb (fun b : bool =>
             let c' := Z.lor (Z.land c (Z.lnot 1)) (Z.b2z b) in
             (0 <=? c') && (c' <? 256) && (Z.abs (c' - c) <=? 1) &&
             (Z.land c' (Z.lnot 1) =? Z.land c (Z.lnot 1)))
          [true; false].

(** ** Conversion presets and [build_cmd]

    [AUDIO_PRESETS] and [VIDEO_PRESETS], the same in both variants: a dict
    from the extension to the ffmpeg options, here the list of its items
    and the map made of them. *)
Definition AUDIO_PRESETS_table : list (string * list string) :=
  [
    ("mp3", ["-vn"; "-acodec"; "libmp3lame"; "-b:a"; "192k"]);
    ("mp3_low", ["-vn"; "-acodec"; "libmp3lame"; "-b:a"; "128k"]);
    ("mp3_high", ["-vn"; "-acodec"; "libmp3lame"; "-b:a"; "320k"]);
    ("aac", ["-vn"; "-acodec"; "aac"; "-b:a"; "192k"]);
    ("aac_low", ["-vn"; "-acodec"; "aac"; "-b:a"; "128k"]);
    ("aac_high", ["-vn"; "-acodec"; "aac"; "-b:a"; "256k"]);
    ("wav", ["-vn"; "-acodec"; "pcm_s16le"]);
    ("wav_24bit", ["-vn"; "-acodec"; "pcm_s24le"]);
    ("flac", ["-vn"; "-acodec"; "flac"]);
    ("flac_high", ["-vn"; "-acodec"; "flac"; "-compression_level"; "8"]);
    ("ogg", ["-vn"; "-acodec"; "libvorbis"; "-q:a"; "5"]);
    ("ogg_low", ["-vn"; "-acodec"; "libvorbis"; "-q:a"; "3"]);
    ("ogg_high", ["-vn"; "-acodec"; "libvorbis"; "-q:a"; "8"]);
    ("opus", ["-vn"; "-acodec"; "libopus"; "-b:a"; "192k"]);
    ("opus_low", ["-vn"; "-acodec"; "libopus"; "-b:a"; "96k"]);
    ("opus_high", ["-vn"; "-acodec"; "libopus"; "-b:a"; "256k"]);
    ("m4a", ["-vn"; "-acodec"; "aac"; "-b:a"; "192k"]);
    ("alac", ["-vn"; "-acodec"; "alac"]);
    ("wma", ["-vn"; "-acodec"; "wmav2"; "-b:a"; "192k"]);
    ("wma_low", ["-vn"; "-acodec"; "wmav2"; "-b:a"; "128k"]);
    ("ac3", ["-vn"; "-acodec"; "ac3"; "-b:a"; "192k"]);
    ("dts", ["-vn"; "-acodec"; "dts"; "-b:a"; "768k"])
  ].

Definition AUDIO_PRESETS : gmap string (list string) :=
  list_to_map AUDIO_PRESETS_table.

Definition VIDEO_PRESETS_table : list (string * list string) :=
  [
    ("mp4", ["-vcodec"; "libx264"; "-crf"; "23"; "-preset"; "medium"; "-c:a"; "copy"]);
    ("mp4_fast", ["-vcodec"; "libx264"; "-crf"; "28"; "-preset"; "ultrafast"; "-c:a"; "copy"]);
    ("mp4_high", ["-vcodec"; "libx264"; "-crf"; "18"; "-preset"; "slow"; "-c:a"; "copy"]);
    ("mp4_h265", ["-vcodec"; "libx265"; "-crf"; "25"; "-preset"; "medium"; "-c:a"; "copy"]);
    ("mkv", ["-vcodec"; "libx264"; "-crf"; "23"; "-preset"; "medium"; "-c:a"; "copy"]);
    ("mkv_h265", ["-vcodec"; "libx265"; "-crf"; "25"; "-preset"; "medium"; "-c:a"; "copy"]);
    ("webm", ["-vcodec"; "libvpx-vp9"; "-crf"; "30"; "-b:v"; "0"; "-c:a"; "copy"]);
    ("webm_low", ["-vcodec"; "libvpx-vp9"; "-crf"; "36"; "-b:v"; "0"; "-c:a"; "copy"]);
    ("webm_high", ["-vcodec"; "libvpx-vp9"; "-crf"; "24"; "-b:v"; "0"; "-c:a"; "copy"]);
    ("gif", ["-vf"; "fps=15,scale=480:-1:flags=lanczos"; "-loop"; "0"]);
    ("gif_low", ["-vf"; "fps=10,scale=320:-1:flags=lanczos"; "-loop"; "0"]);
    ("avi", ["-vcodec"; "mpeg4"; "-q:v"; "5"; "-c:a"; "copy"]);
    ("avi_divx", ["-vcodec"; "libxvid"; "-q:v"; "5"; "-c:a"; "copy"]);
    ("mov", ["-vcodec"; "libx264"; "-crf"; "23"; "-preset"; "medium"; "-c:a"; "copy"]);
    ("mov_prores", ["-vcodec"; "prores"; "-profile:v"; "2"; "-c:a"; "copy"]);
    ("flv", ["-vcodec"; "flv1"; "-q:v"; "5"; "-c:a"; "copy"]);
    ("m4v", ["-vcodec"; "libx264"; "-crf"; "23"; "-preset"; "medium"; "-c:a"; "copy"]);
    ("ogv", ["-vcodec"; "libtheora"; "-q:v"; "7"; "-c:a"; "copy"]);
    ("3gp", ["-vcodec"; "h263"; "-s"; "176x144"; "-c:a"; "copy"]);
    ("mpeg", ["-vcodec"; "mpeg2video"; "-q:v"; "5"; "-c:a"; "copy"]);
    ("vob", ["-vcodec"; "mpeg2video"; "-q:v"; "5"; "-c:a"; "copy"]);
    ("m2ts", ["-vcodec"; "libx264"; "-crf"; "23"; "-preset"; "medium"; "-c:a"; "copy"]);
    ("ts", ["-vcodec"; "libx264"; "-crf"; "23"; "-preset"; "medium"; "-c:a"; "copy"]);
    ("asf", ["-vcodec"; "wmv2"; "-q:v"; "5"; "-c:a"; "copy"])
  ].

Definition VIDEO_PRESETS : gmap string (list string) :=
  list_to_map VIDEO_PRESETS_table.

(** [str.lower()], as far as membership in a set of ASCII words goes: the
    letters A-Z, and the Kelvin sign (U+212A, in UTF-8 E2 84 AA), the one
    character outside ASCII whose lower case is an ASCII letter. *)
Fixpoint lower (l : list ascii) : list ascii :=
  match l with
  | [] => []
  | a :: l' =>
      match l' with
      | b :: c :: l'' =>
          if Ascii.eqb a "226" && Ascii.eqb b "132" && Ascii.eqb c "170"
          then "k"%char :: lower l''
          else lower_char a :: lower l'
      | _ => lower_char a :: lower l'
      end
  end.

(** [build_cmd(src, dst)]: the options are looked up under
    [dst.suffix.lstrip(".").lower()], in the audio table first. *)
Section BuildCmd.

(** [str(path)] *)
Variable path_str : Path -> string.

Definition build_cmd (src dst : Path) : list string :=
  let ext :=
    string_of_list_ascii (lower (lstrip dot (list_ascii_of_string (suffix dst)))) in
  let cmd := ["ffmpeg"; "-y"; "-i"; path_str src] in
  let cmd :=
    match AUDIO_PRESETS !! ext with
    | Some preset => cmd ++ preset
    | None =>
        match VIDEO_PRESETS !! ext with
        | Some preset => cmd ++ preset
        | None => cmd
        end
    end in
  cmd ++ [path_str dst].

End BuildCmd.

(** * Properties *)

(** ** The digest *)

Example round_constants :
  take 2 Sha256.K = [0x428a2f98; 0x71374491] /\
  last Sha256.K = Some 0xc67178f2 /\
  Sha256.ra Sha256.H0 = 0x6a09e667.
Proof. vm_compute. done. Qed.

Example digest_pw :
  hexdigest (Sha256.digest (encode "pw")) =
  "30c952fab122c3f9759f02a6d95c3758b246b4fee239957b2d4fee46e26170c4".
Proof. vm_compute. reflexivity. Qed.

Example digest_abc :
  hexdigest (Sha256.digest (encode "abc")) =
  "ba7816bf8f01cfea414140de5dae2223b00361a396177a9cb410ff61f20015ad".
Proof. vm_compute. reflexivity. Qed.

Example digest_two_blocks :
  hexdigest (Sha256.digest
    (encode "abcdbcdecdefdefgefghfghighijhijkijkljklmklmnlmnomnopnopq")) =
  "248d6a61d20638b8e5c026930c3e6039a33ce45964ff2167f6ecedd419db06c1".
Proof. vm_compute. reflexivity. Qed.

Example utf8_samples :
  map utf8_valid
    [ encode "hi"; [0xC3; 0xA9]; [0xE2; 0x82; 0xAC]; [0xF0; 0x9F; 0x98; 0x80];
      [0xC0; 0x80]; [0xED; 0xA0; 0x80]; [0xF4; 0x90; 0x80; 0x80]; [0xE2; 0x82];
      [0x80]; [0xFF] ]
  = [true; true; true; true; false; false; false; false; false; false].
Proof. reflexivity. Qed.

Example b64_samples :
  b64encode (encode "hello!") = encode "aGVsbG8h" /\
  b64encode (encode "hi") = encode "aGk=" /\
  b64decode (encode "aGk=") = Ok (encode "hi") /\
  b64decode (encode "aG k=") = Ok (encode "hi") /\
  b64decode [1] = Ok [] /\
  b64decode (encode "aGk") = Raise (binascii_Error "Incorrect padding") /\
  b64decode [255] =
    Raise (ValueError "string argument should contain only ASCII characters").
Proof. repeat split. Qed.

Example path_samples :
  map (fun n => (suffix (mkPath "" n), ext (mkPath "" n)))
      ["a.PNG"; ".png"; "a.b.JpEg"; "a."; "a..png"; "x.tar.gz"; ""]
  = [(".PNG", "png"); ("", ""); (".JpEg", "jpeg"); ("", ""); (".png", "png");
     (".gz", "gz"); ("", "")] /\
  map (fun n => with_suffix (mkPath "" n) ".png") ["a.txt"; ".png"; "a."; ""]
  = [Ok (mkPath "" "a.png"); Ok (mkPath "" ".png.png"); Ok (mkPath "" "a..png");
     Raise (ValueError "path has an empty name")].
Proof. split; reflexivity. Qed.

Lemma digest_length (m : list Z) :
  length (Sha256.digest m) = Sha256.digest_size.
Proof. unfold Sha256.digest. rewrite !length_app. reflexivity. Qed.

Lemma digest_nonempty (m : list Z) : Sha256.digest m <> [].
Proof.
  intros E. pose proof (digest_length m) as L. rewrite E in L. discriminate L.
Qed.

(** ** The XOR stream *)

Lemma zip_cycle_restart (data saved : list Z) :
  zip_cycle data [] saved = zip_cycle data saved saved.
Proof. destruct data; [done|]. by destruct saved. Qed.

Lemma zip_cycle_length (data cur saved : list Z) :
  saved <> [] -> length (zip_cycle data cur saved) = length data.
Proof.
  intros Hs. revert cur. induction data as [|b data IH]; intros cur; [done|].
  destruct cur as [|k cur]; [rewrite zip_cycle_restart; destruct saved; [done|]|];
    simpl; by rewrite IH.
Qed.

Lemma zip_cycle_involutive (data cur saved : list Z) :
  saved <> [] ->
  map xor_pair (zip_cycle (map xor_pair (zip_cycle data cur saved)) cur saved)
  = data.
Proof.
  intros Hs. revert cur. induction data as [|b data IH]; intros cur; [done|].
  assert (Hx : forall k, Z.lxor (Z.lxor b k) k = b)
    by (intros k; by rewrite Z.lxor_assoc, Z.lxor_nilpotent, Z.lxor_0_r).
  destruct cur as [|k cur].
  - destruct saved as [|k cur]; [done|]. simpl.
    f_equal; [apply Hx | apply IH].
  - simpl. f_equal; [apply Hx | apply IH].
Qed.

(** The key byte that meets position [i]: taken from what is left of the
    first pass, then from the saved copy, cyclically. *)
Lemma zip_cycle_lookup (data cur saved : list Z) (i : nat) (b : Z) :
  saved <> [] ->
  data !! i = Some b ->
  exists k,
    (if (i <? length cur)%nat then cur !! i
     else saved !! ((i - length cur) mod length saved)%nat) = Some k /\
    zip_cycle data cur saved !! i = Some (b, k).
Proof.
  intros Hs. revert cur i. induction data as [|b0 data IH]; intros cur i Hi; [done|].
  destruct cur as [|k cur].
  - destruct saved as [|k cur] eqn:E; [done|].
    destruct i as [|i].
    + simpl in Hi. injection Hi as ->. exists k. split; [|done].
      simpl length. cbn [Nat.ltb Nat.leb]. rewrite Nat.sub_0_r.
      by rewrite Nat.Div0.mod_0_l.
    + simpl in Hi. destruct (IH cur i Hi) as (k' & Hk & Hz).
      exists k'. split; [|done].
      change ((S i <? length (@nil Z))%nat) with false. cbv iota.
      simpl length at 1. rewrite Nat.sub_0_r.
      destruct (i <? length cur)%nat eqn:Hlt.
      * apply Nat.ltb_lt in Hlt.
        rewrite Nat.mod_small by (simpl; lia). done.
      * apply Nat.ltb_ge in Hlt. rewrite <- Hk. f_equal.
        replace (S i) with ((i - length cur) + 1 * length (k :: cur))%nat
          by (simpl; lia).
        by rewrite Nat.Div0.mod_add.
  - destruct i as [|i]; simpl in *.
    + injection Hi as ->. by exists k.
    + destruct (IH cur i Hi) as (k' & Hk & Hz). by exists k'.
Qed.

Lemma xor_length (data : list Z) (key : string) :
  length (_xor data key) = length data.
Proof.
  unfold _xor. rewrite length_map.
  apply zip_cycle_length, digest_nonempty.
Qed.

Lemma xor_lookup (data : list Z) (key : string) (i : nat) (b : Z) :
  data !! i = Some b ->
  exists k, Sha256.digest (encode key) !! (i mod 32)%nat = Some k /\
            _xor data key !! i = Some (Z.lxor b k).
Proof.
  intros Hi. set (digest := Sha256.digest (encode key)).
  destruct (zip_cycle_lookup data digest digest i b (digest_nonempty _) Hi)
    as (k & Hk & Hz).
  exists k. split.
  - pose proof (digest_length (encode key)) as L. fold digest in L.
    change Sha256.digest_size with 32%nat in L. rewrite L in Hk.
    destruct (i <? 32)%nat eqn:Hlt.
    + apply Nat.ltb_lt in Hlt. by rewrite Nat.mod_small.
    + apply Nat.ltb_ge in Hlt. rewrite <- Hk. f_equal.
      replace i with ((i - 32) + 1 * 32)%nat at 1 by lia.
      by rewrite Nat.Div0.mod_add.
  - unfold _xor. fold digest. by rewrite list_lookup_fmap, Hz.
Qed.

(** C6. [_xor(data, key)] has the length of [data], and its byte at every
    position [i] is [data[i]] XOR [digest[i mod 32]], where [digest] is the
    32-byte SHA-256 digest of the encoded passphrase; the digest is a
    function of the passphrase alone. *)
Theorem xor_stream_spec (data : list Z) (key : string) :
  let digest := Sha256.digest (encode key) in
  length digest = 32%nat /\
  length (_xor data key) = length data /\
  (forall i b, data !! i = Some b ->
     exists k, digest !! (i mod 32)%nat = Some k /\
               _xor data key !! i = Some (Z.lxor b k)) /\
  (forall key', key' = key -> Sha256.digest (encode key') = digest).
Proof.
  intros digest. split; [apply digest_length|].
  split; [apply xor_length|]. split; [|by intros ? ->].
  intros i b. apply xor_lookup.
Qed.

Lemma xor_stream_spec_witness :
  let data := [104; 105; 33] in
  data !! 2%nat = Some 33 /\
  exists k, Sha256.digest (encode "pw") !! (2 mod 32)%nat = Some k /\
            _xor data "pw" !! 2%nat = Some (Z.lxor 33 k).
Proof.
  split; [reflexivity|].
  exact (proj1 (proj2 (proj2 (xor_stream_spec [104; 105; 33] "pw")))
           2%nat 33 eq_refl).
Defined.

(** C7. [_xor] is its own inverse under one passphrase.  It is a function
    of its two arguments and touches no state. *)
Theorem xor_involutive (data : list Z) (key : string) :
  _xor (_xor data key) key = data.
Proof.
  unfold _xor. apply (zip_cycle_involutive data), digest_nonempty.
Qed.

(** ** Argument checks *)

Lemma hide_msg_bad_source (img_in img_out : Path) (msg pwd : string)
    (d : gmap Path file) :
  image_ext img_in = false ->
  hide_msg img_in img_out msg pwd d =
  (Raise (ValueError "Source must be an image (png, jpg, jpeg, bmp, webp)."), d).
Proof. intros H. unfold hide_msg. by rewrite H. Qed.

Lemma hide_msg_checked (img_in img_out : Path) (msg pwd : string)
    (d : gmap Path file) :
  image_ext img_in = true -> msg <> "" -> pwd <> "" ->
  hide_msg img_in img_out msg pwd d =
  match out_path img_out with
  | Raise e => (Raise e, d)
  | Ok out =>
      match Image_open img_in d with
      | Raise e => (Raise e, d)
      | Ok img =>
          let bits := frame_bits (encrypt msg pwd) in
          if (width img * height img * 3 <? length bits)%nat then
            (Raise (ValueError "Message too large for image capacity."), d)
          else
            (Ok tt,
             <[out := File PNG
                 (Image (width img) (height img)
                    (hide_rows bits (width img) (height img) (pixels img)).1)]> d)
      end
  end.
Proof.
  intros Hs Hm Hp. unfold hide_msg. rewrite Hs. simpl.
  destruct (decide (msg = "")); [done|]. by destruct (decide (pwd = "")).
Qed.

Lemma with_suffix_not_message (p : Path) (suf : string) (e : exn) :
  with_suffix p suf = Raise e -> e = ValueError "path has an empty name".
Proof.
  unfold with_suffix. destruct (decide (name p = "")); [congruence|].
  by destruct (decide (suffix p = "")).
Qed.

(** C8. Both variants of [hide_msg] turn down an empty message and an empty
    passphrase with a [ValueError], and both variants of [reveal_msg] turn
    down an empty passphrase, whatever the file store holds and without
    changing it; with a message and a passphrase that are not empty, neither
    of these two errors is raised. *)
Theorem argument_checks
    (lsb_hide : Path -> list Z -> gmap Path file -> result image)
    (lsb_reveal : Path -> gmap Path file -> result (option (list Z)))
    (img_in img_out : Path) (msg pwd : string) (d : gmap Path file) :
  (* the empty message *)
  (msg = "" ->
     hide_msg img_in img_out msg pwd d =
       (Raise (ValueError
          (if image_ext img_in then "Message cannot be empty."
           else "Source must be an image (png, jpg, jpeg, bmp, webp).")), d) /\
     Desktop.hide_msg lsb_hide img_in img_out msg pwd d =
       (Raise (ValueError
          (if image_ext img_in then "Message to hide cannot be empty."
           else "Source must be an image (png, jpg, jpeg, bmp, webp).")), d)) /\
  (* the empty passphrase *)
  (pwd = "" ->
     (exists e, hide_msg img_in img_out msg pwd d = (Raise (ValueError e), d) /\
        (image_ext img_in = true -> msg <> "" -> e = "Password cannot be empty.")) /\
     (exists e, Desktop.hide_msg lsb_hide img_in img_out msg pwd d
                = (Raise (ValueError e), d) /\
        (image_ext img_in = true -> msg <> "" -> e = "Password cannot be empty.")) /\
     reveal_msg img_in pwd d =
       Raise (ValueError
          (if image_ext img_in then "Password cannot be empty."
           else "Input must be an image (png, jpg, jpeg, bmp, webp).")) /\
     Desktop.reveal_msg lsb_reveal img_in pwd d =
       Raise (ValueError
          (if image_ext img_in then "Password cannot be empty."
           else "Input must be an image (png, jpg, jpeg, bmp, webp)."))) /\
  (* arguments that are not empty *)
  (msg <> "" -> pwd <> "" ->
     (forall r d', hide_msg img_in img_out msg pwd d = (r, d') ->
        r <> Raise (ValueError "Message cannot be empty.") /\
        r <> Raise (ValueError "Password cannot be empty.")) /\
     (forall e d', Desktop.hide_msg lsb_hide img_in img_out msg pwd d = (Raise e, d') ->
        e = ValueError "Message to hide cannot be empty." \/
        e = ValueError "Password cannot be empty." ->
        lsb_hide img_in (encrypt msg pwd) d = Raise e) /\
     reveal_msg img_in pwd d <> Raise (ValueError "Password cannot be empty.") /\
     Desktop.reveal_msg lsb_reveal img_in pwd d
       <> Raise (ValueError "Password cannot be empty.")).
Proof.
  split; [|split].
  - intros ->. unfold hide_msg, Desktop.hide_msg.
    by destruct (image_ext img_in).
  - intros ->. unfold hide_msg, Desktop.hide_msg, reveal_msg, Desktop.reveal_msg.
    destruct (image_ext img_in); simpl.
    + destruct (decide (msg = "")) as [->|Hm];
        (split; [eexists; split; [reflexivity|done]|]);
        (split; [eexists; split; [reflexivity|done]|]); done.
    + (split; [eexists; split; [reflexivity|done]|]);
        (split; [eexists; split; [reflexivity|done]|]); done.
  - intros Hm Hp. split; [|split; [|split]].
    + intros r d'. destruct (image_ext img_in) eqn:Hs.
      * rewrite hide_msg_checked by done.
        destruct (out_path img_out) as [out|e] eqn:Ho.
        -- destruct (Image_open img_in d) as [img|e] eqn:Hopen.
           ++ cbv zeta. case (_ <? _)%nat; intros [= <- <-]; done.
           ++ intros [= <- <-]. unfold Image_open in Hopen.
              destruct (d !! img_in); [done|]. by injection Hopen as <-.
        -- intros [= <- <-]. unfold out_path in Ho.
           destruct (image_ext img_out); [done|].
           by rewrite (with_suffix_not_message _ _ _ Ho).
      * rewrite hide_msg_bad_source by done. by intros [= <- <-].
    + intros e d'. unfold Desktop.hide_msg.
      destruct (image_ext img_in); simpl; [|intros [= <- <-] [|]; done].
      destruct (decide (msg = "")); [done|].
      destruct (decide (pwd = "")); [done|].
      destruct (out_path img_out) as [out|e0] eqn:Ho.
      * destruct (lsb_hide img_in (encrypt msg pwd) d) as [secret|e0] eqn:Hh.
        -- repeat case_decide; try by intros [= <- <-].
           destruct (with_suffix out ".png") eqn:Hw; [by intros [=]|].
           intros [= <- <-].
           rewrite (with_suffix_not_message _ _ _ Hw). by intros [|].
        -- by intros [= <- <-].
      * intros [= <- <-]. unfold out_path in Ho.
        destruct (image_ext img_out); [done|].
        rewrite (with_suffix_not_message _ _ _ Ho). by intros [|].
    + unfold reveal_msg. destruct (image_ext img_in); simpl; [|done].
      destruct (decide (pwd = "")); [done|].
      destruct (Image_open img_in d) as [img|e] eqn:Hopen.
      * unfold try_decrypt. by destruct (decrypt _ _).
      * unfold Image_open in Hopen. destruct (d !! img_in); [done|].
        by injection Hopen as <-.
    + unfold Desktop.reveal_msg. destruct (image_ext img_in); simpl; [|done].
      destruct (decide (pwd = "")); [done|].
      by destruct (bind _ _).
Qed.


Lemma argument_checks_witness :
  let d : gmap Path file := ∅ in
  let lsb_hide := fun (_ : Path) (_ : list Z) (_ : gmap Path file) =>
                    Raise (A := image) FileNotFoundError in
  let lsb_reveal := fun (_ : Path) (_ : gmap Path file) =>
                      Ok (A := option (list Z)) None in
  let src := mkPath "/sdcard" "in.png" in
  let dst := mkPath "/sdcard" "out.png" in
  hide_msg src dst "" "pw" d = (Raise (ValueError "Message cannot be empty."), d) /\
  reveal_msg src "" d = Raise (ValueError "Password cannot be empty.") /\
  reveal_msg src "pw" d <> Raise (ValueError "Password cannot be empty.").
Proof.
  intros d lsb_hide lsb_reveal src dst. split; [|split].
  - exact (proj1 (proj1 (argument_checks lsb_hide lsb_reveal src dst "" "pw" d)
                    eq_refl)).
  - exact (proj1 (proj2 (proj2
             (proj1 (proj2 (argument_checks lsb_hide lsb_reveal src dst "hi" "" d))
                    eq_refl)))).
  - refine (proj1 (proj2 (proj2
             (proj2 (proj2 (argument_checks lsb_hide lsb_reveal src dst "hi" "pw" d))
                    _ _)))); discriminate.
Defined.

(** ** The steps of a successful [hide_msg] *)

Lemma hide_msg_ok_inv (img_in img_out : Path) (msg pwd : string)
    (d d' : gmap Path file) (u : unit) :
  hide_msg img_in img_out msg pwd d = (Ok u, d') ->
  image_ext img_in = true /\ msg <> "" /\ pwd <> "" /\
  exists out f,
    out_path img_out = Ok out /\ d !! img_in = Some f /\
    let img := raster f in
    let bits := frame_bits (encrypt msg pwd) in
    (length bits <= width img * height img * 3)%nat /\
    d' = <[out := File PNG
             (Image (width img) (height img)
                (hide_rows bits (width img) (height img) (pixels img)).1)]> d.
Proof.
  intros H. destruct (image_ext img_in) eqn:Hs;
    [|by rewrite hide_msg_bad_source in H].
  unfold hide_msg in H. rewrite Hs in H. simpl in H.
  destruct (decide (msg = "")) as [|Hm]; [done|].
  destruct (decide (pwd = "")) as [|Hp]; [done|].
  do 3 (split; [done|]).
  destruct (out_path img_out) as [out|e]; [|done].
  unfold Image_open in H. destruct (d !! img_in) as [f|]; [|done].
  exists out, f. do 2 (split; [done|]). cbv zeta.
  destruct (_ <? _)%nat eqn:Hc; [done|]. apply Nat.ltb_ge in Hc.
  split; [done|]. by injection H as <-.
Qed.

Lemma with_suffix_name (p q : Path) (suf : string) :
  with_suffix p suf = Ok q ->
  parent q = parent p /\ exists stem, name q = stem +:+ suf.
Proof.
  unfold with_suffix. destruct (decide (name p = "")); [done|].
  destruct (decide (suffix p = "")); intros [= <-]; simpl; eauto.
Qed.

(** C10. Whenever the mobile [hide_msg] succeeds, what it stores is a PNG
    file: under the requested path if its extension is one of
    [IMAGE_EXTS] (so also for .jpg, .jpeg, .bmp and .webp), and otherwise
    under the requested path renamed to end in ".png". *)
Theorem hide_msg_saves_png (img_in img_out : Path) (msg pwd : string)
    (d d' : gmap Path file) :
  hide_msg img_in img_out msg pwd d = (Ok tt, d') ->
  exists out im,
    d' = <[out := File PNG im]> d /\
    file_format <$> d' !! out = Some PNG /\
    (image_ext img_out = true -> out = img_out) /\
    (image_ext img_out = false ->
       parent out = parent img_out /\ exists stem, name out = stem +:+ ".png").
Proof.
  intros H. apply hide_msg_ok_inv in H
    as (_ & _ & _ & out & f & Ho & _ & _ & ->).
  eexists out, _. split; [reflexivity|]. split; [by rewrite lookup_insert_eq|].
  unfold out_path in Ho. destruct (image_ext img_out).
  - injection Ho as <-. by split.
  - split; [done|]. intros _. by eapply with_suffix_name.
Qed.

(** ** Capacity *)

Lemma frame_bits_length (cipher : list Z) :
  length (frame_bits cipher) = (8 * length cipher + 8)%nat.
Proof.
  unfold frame_bits. induction cipher as [|c cipher IH]; [done|].
  simpl in *. rewrite IH. lia.
Qed.

(** C4. Once the arguments are accepted and the source image is open,
    [hide_msg] succeeds exactly when the framed bit stream (eight bits for
    each cipher character and eight for the terminator) is no longer than
    [width * height * 3].  A cipher of exactly [width * height * 3 - 8]
    bits is embedded; a longer one is refused with the capacity error, and
    the file store is then what it was. *)
Theorem capacity_check (img_in img_out out : Path) (msg pwd : string)
    (d : gmap Path file) (f : file) :
  image_ext img_in = true -> msg <> "" -> pwd <> "" ->
  out_path img_out = Ok out -> d !! img_in = Some f ->
  let cipher := encrypt msg pwd in
  let bits := frame_bits cipher in
  let capacity := (width (raster f) * height (raster f) * 3)%nat in
  length bits = (8 * length cipher + 8)%nat /\
  ((exists d', hide_msg img_in img_out msg pwd d = (Ok tt, d'))
     <-> (length bits <= capacity)%nat) /\
  (8 * Z.of_nat (length cipher) = Z.of_nat capacity - 8 ->
     exists d', hide_msg img_in img_out msg pwd d = (Ok tt, d')) /\
  (8 * Z.of_nat (length cipher) > Z.of_nat capacity - 8 ->
     hide_msg img_in img_out msg pwd d =
     (Raise (ValueError "Message too large for image capacity."), d)).
Proof.
  intros Hs Hm Hp Ho Hf cipher bits capacity.
  pose proof (frame_bits_length cipher) as Hlen. fold bits in Hlen.
  assert (Heq : hide_msg img_in img_out msg pwd d =
    if (capacity <? length bits)%nat
    then (Raise (ValueError "Message too large for image capacity."), d)
    else (Ok tt,
          <[out := File PNG
              (Image (width (raster f)) (height (raster f))
                 (hide_rows bits (width (raster f)) (height (raster f))
                    (pixels (raster f))).1)]> d)).
  { rewrite hide_msg_checked by done. rewrite Ho. unfold Image_open.
    by rewrite Hf. }
  split; [done|]. rewrite Heq. split; [|split].
  - destruct (Nat.ltb_spec capacity (length bits)); split.
    + by intros [d' [=]].
    + lia.
    + done.
    + eauto.
  - intros Hb. destruct (Nat.ltb_spec capacity (length bits)); [lia|eauto].
  - intros Hb. destruct (Nat.ltb_spec capacity (length bits)); [done|lia].
Qed.

(** ** The embedding loops *)

Section Embedding.

Variable bits : list bool.
Let n := length bits.

Lemma embed_channel_past (j : nat) (c : Z) :
  (n <= j)%nat -> embed_channel bits j c = c.
Proof using Type.
  intros H. unfold embed_channel.
  destruct (Nat.ltb_spec j (length bits)); [unfold n in H; lia|done].
Qed.

Lemma embed_channel_high (j : nat) (c k : Z) :
  0 < k -> Z.testbit (embed_channel bits j c) k = Z.testbit c k.
Proof using Type.
  intros Hk. unfold embed_channel. case (_ <? _)%nat; [|done].
  rewrite Z.lor_spec, Z.land_spec, Z.lnot_spec by lia.
  assert (Z.testbit 1 k = false) as ->
    by (apply Z.bits_above_log2; simpl; lia).
  assert (Z.testbit (Z.b2z (bits !!! j)) k = false) as ->.
  { destruct (bits !!! j); simpl Z.b2z;
      [apply Z.bits_above_log2; simpl; lia | apply Z.bits_0]. }
  simpl. by rewrite andb_true_r, orb_false_r.
Qed.

Lemma embed_channel_low (j : nat) (c : Z) :
  (j < n)%nat -> Z.testbit (embed_channel bits j c) 0 = bits !!! j.
Proof using Type.
  intros H. unfold embed_channel.
  destruct (Nat.ltb_spec j (length bits)); [|unfold n in H; lia].
  rewrite Z.lor_spec, Z.land_spec, Z.lnot_spec by lia.
  rewrite Z.b2z_bit0. simpl. by rewrite andb_false_r.
Qed.

Lemma hide_pixel_spec (i : nat) (p : pixel) :
  (3 * i < n)%nat ->
  hide_pixel bits p (3 * i) = (embed_pixel bits i p, (3 * i + 3) `min` n)%nat.
Proof using Type.
  intros H. destruct p as [[r g] b].
  unfold hide_pixel, embed_pixel, set_lsb, embed_channel. fold n. simpl fst; simpl snd.
  destruct (Nat.ltb_spec (3 * i) n) as [_|]; [|lia].
  replace (S (3 * i)) with (3 * i + 1)%nat by lia.
  destruct (Nat.ltb_spec (3 * i + 1) n).
  - replace (S (3 * i + 1)) with (3 * i + 2)%nat by lia.
    destruct (Nat.ltb_spec (3 * i + 2) n); f_equal; lia.
  - destruct (Nat.ltb_spec (3 * i + 1) n); [lia|].
    destruct (Nat.ltb_spec (3 * i + 2) n); [lia|]. f_equal; lia.
Qed.

Lemma embed_upto_0 (px : list pixel) : embed_upto bits 0 px = px.
Proof using Type.
  unfold embed_upto. apply list_eq. intros i. rewrite list_lookup_imap.
  by destruct (px !! i).
Qed.

Lemma embed_upto_lookup (m i : nat) (px : list pixel) :
  embed_upto bits m px !! i =
  (fun p => if (i <? m)%nat then embed_pixel bits i p else p) <$> px !! i.
Proof using Type. unfold embed_upto. by rewrite list_lookup_imap. Qed.

Lemma embed_pixel_past (i : nat) (p : pixel) :
  (n <= 3 * i)%nat -> embed_pixel bits i p = p.
Proof using Type.
  intros H. destruct p as [[r g] b]. unfold embed_pixel. simpl.
  by rewrite !embed_channel_past by lia.
Qed.

(** Once the bits are used up, visiting more pixels changes nothing. *)
Lemma embed_upto_saturated (m m' : nat) (px : list pixel) :
  (n <= 3 * m)%nat -> (m <= m')%nat ->
  embed_upto bits m' px = embed_upto bits m px.
Proof using Type.
  intros Hn Hm. apply list_eq. intros i. rewrite !embed_upto_lookup.
  destruct (px !! i) as [p|]; [|done]. simpl. f_equal.
  destruct (Nat.ltb_spec i m), (Nat.ltb_spec i m'); try done; try lia.
  apply embed_pixel_past. lia.
Qed.

Lemma embed_upto_step (m : nat) (px : list pixel) (p : pixel) :
  px !! m = Some p ->
  <[m := embed_pixel bits m p]> (embed_upto bits m px) = embed_upto bits (S m) px.
Proof using Type.
  intros Hp. apply list_eq. intros i.
  destruct (decide (i = m)) as [->|Hne].
  - rewrite list_lookup_insert_eq
      by (unfold embed_upto; rewrite length_imap; by eapply lookup_lt_Some).
    rewrite embed_upto_lookup, Hp. simpl.
    by destruct (Nat.ltb_spec m (S m)); [|lia].
  - rewrite list_lookup_insert_ne by done. rewrite !embed_upto_lookup.
    destruct (px !! i) as [q|]; [|done]. simpl. f_equal.
    destruct (Nat.ltb_spec i m), (Nat.ltb_spec i (S m)); try done; lia.
Qed.

Lemma hide_row_spec (w y : nat) (px : list pixel) (k x0 : nat) :
  (y * w + x0 + k <= length px)%nat ->
  hide_row bits w y (seq x0 k)
    (embed_upto bits (y * w + x0) px, (3 * (y * w + x0)) `min` n)%nat
  = (embed_upto bits (y * w + x0 + k) px, (3 * (y * w + x0 + k)) `min` n)%nat.
Proof using Type.
  revert x0. induction k as [|k IH]; intros x0 Hlen.
  - cbn [seq hide_row]. by rewrite (Nat.add_0_r (y * w + x0)).
  - cbn [seq hide_row fst snd]. fold n.
    destruct (Nat.leb_spec n ((3 * (y * w + x0)) `min` n)%nat) as [Hfull|Hmore].
    + rewrite (embed_upto_saturated (y * w + x0) (y * w + x0 + S k)) by lia.
      f_equal. lia.
    + rewrite Nat.min_l by lia.
      destruct (lookup_lt_is_Some_2 px (y * w + x0)%nat) as [p Hp]; [lia|].
      assert (getpixel w (embed_upto bits (y * w + x0) px) x0 y = p) as ->.
      { unfold getpixel. apply list_lookup_total_correct.
        rewrite embed_upto_lookup, Hp. simpl.
        by destruct (Nat.ltb_spec (y * w + x0) (y * w + x0)); [lia|]. }
      rewrite hide_pixel_spec by lia. unfold putpixel.
      rewrite embed_upto_step by done.
      replace (S (y * w + x0)) with (y * w + S x0)%nat by lia.
      replace (3 * (y * w + x0) + 3)%nat with (3 * (y * w + S x0))%nat by lia.
      rewrite IH by lia. f_equal; [f_equal; lia|]. f_equal. lia.
Qed.

Lemma hide_rows_from (w : nat) (px : list pixel) (k y0 : nat) :
  ((y0 + k) * w <= length px)%nat ->
  foldl (fun st y => hide_row bits w y (seq 0 w) st)
    (embed_upto bits (y0 * w) px, (3 * (y0 * w)) `min` n)%nat (seq y0 k)
  = (embed_upto bits ((y0 + k) * w) px, (3 * ((y0 + k) * w)) `min` n)%nat.
Proof using Type.
  revert y0. induction k as [|k IH]; intros y0 Hlen.
  - cbn [seq foldl]. by rewrite (Nat.add_0_r y0).
  - cbn [seq foldl].
    pose proof (hide_row_spec w y0 px w 0) as Hrow.
    rewrite Nat.add_0_r in Hrow. rewrite Hrow by lia.
    replace (y0 * w + w)%nat with (S y0 * w)%nat by lia.
    rewrite IH by lia. f_equal; [f_equal; lia|]. f_equal. lia.
Qed.

(** The two loops together visit every pixel of a well-formed raster. *)
Lemma hide_rows_spec (w h : nat) (px : list pixel) :
  length px = (w * h)%nat ->
  (hide_rows bits w h px).1 = imap (embed_pixel bits) px.
Proof using Type.
  intros Hlen. unfold hide_rows.
  pose proof (hide_rows_from w px h 0) as H. simpl in H.
  rewrite embed_upto_0 in H. rewrite H by lia. simpl.
  apply list_eq. intros i. rewrite embed_upto_lookup, list_lookup_imap.
  destruct (px !! i) as [p|] eqn:Hp; [|done]. simpl. f_equal.
  apply lookup_lt_Some in Hp.
  by destruct (Nat.ltb_spec i (h * w)); [|lia].
Qed.

End Embedding.

(** C5. After a successful [hide_msg] the stored raster has the size of the
    source and, channel by channel in raster order (R, G, B within a
    pixel, so channel [c] of pixel [i] is at position [3 * i + c]): every
    bit above the lowest is the source's, and a channel at a position that
    the bit stream does not reach is the source's channel unchanged.  The
    lowest bit of a channel that the stream does reach is the stream's bit
    there. *)
Theorem embedding_frame (img_in img_out : Path) (msg pwd : string)
    (d d' : gmap Path file) (f : file) :
  hide_msg img_in img_out msg pwd d = (Ok tt, d') ->
  d !! img_in = Some f ->
  wf_image (raster f) ->
  let bits := frame_bits (encrypt msg pwd) in
  exists out px',
    out_path img_out = Ok out /\
    d' = <[out := File PNG (Image (width (raster f)) (height (raster f)) px')]> d /\
    length px' = length (pixels (raster f)) /\
    forall i r g b, pixels (raster f) !! i = Some (r, g, b) ->
      exists r' g' b', px' !! i = Some (r', g', b') /\
        (forall k, 0 < k ->
           Z.testbit r' k = Z.testbit r k /\
           Z.testbit g' k = Z.testbit g k /\
           Z.testbit b' k = Z.testbit b k) /\
        ((length bits <= 3 * i)%nat -> r' = r) /\
        ((length bits <= 3 * i + 1)%nat -> g' = g) /\
        ((length bits <= 3 * i + 2)%nat -> b' = b) /\
        ((3 * i < length bits)%nat -> Z.testbit r' 0 = bits !!! (3 * i)%nat) /\
        ((3 * i + 1 < length bits)%nat -> Z.testbit g' 0 = bits !!! (3 * i + 1)%nat) /\
        ((3 * i + 2 < length bits)%nat -> Z.testbit b' 0 = bits !!! (3 * i + 2)%nat).
Proof.
  intros H Hf Hwf bits.
  apply hide_msg_ok_inv in H as (_ & _ & _ & out & f' & Ho & Hf' & _ & ->).
  rewrite Hf in Hf'. injection Hf' as <-. fold bits.
  rewrite (hide_rows_spec bits) by (rewrite Hwf; lia).
  eexists out, _. split; [done|]. split; [done|].
  split; [by rewrite length_imap|].
  intros i r g b Hi. eexists _, _, _.
  split; [rewrite list_lookup_imap; unfold pixel in *; by rewrite Hi|].
  split; [intros k Hk; by rewrite !embed_channel_high|].
  repeat split; first [apply embed_channel_past | apply embed_channel_low].
Qed.

Lemma pair_from_fst {A B : Type} (p : A * B) (a : A) :
  p.1 = a -> p = (a, p.2).
Proof. intros <-. by destruct p. Defined.

Lemma embedding_frame_witness :
  let f := File PNG (flat_image 4 4 (200, 100, 51)) in
  let d := sample_store (raster f) in
  let d' := (hide_msg sample_in sample_out "hi" "pw" d).2 in
  let bits := frame_bits (encrypt "hi" "pw") in
  exists out px',
    out_path sample_out = Ok out /\
    d' = <[out := File PNG (Image (width (raster f)) (height (raster f)) px')]> d /\
    length px' = length (pixels (raster f)) /\
    forall i r g b, pixels (raster f) !! i = Some (r, g, b) ->
      exists r' g' b', px' !! i = Some (r', g', b') /\
        (forall k, 0 < k ->
           Z.testbit r' k = Z.testbit r k /\
           Z.testbit g' k = Z.testbit g k /\
           Z.testbit b' k = Z.testbit b k) /\
        ((length bits <= 3 * i)%nat -> r' = r) /\
        ((length bits <= 3 * i + 1)%nat -> g' = g) /\
        ((length bits <= 3 * i + 2)%nat -> b' = b) /\
        ((3 * i < length bits)%nat -> Z.testbit r' 0 = bits !!! (3 * i)%nat) /\
        ((3 * i + 1 < length bits)%nat -> Z.testbit g' 0 = bits !!! (3 * i + 1)%nat) /\
        ((3 * i + 2 < length bits)%nat -> Z.testbit b' 0 = bits !!! (3 * i + 2)%nat).
Proof.
  intros f d d' bits.
  refine (embedding_frame sample_in sample_out "hi" "pw" d d' f _ _ _).
  - apply pair_from_fst. vm_compute. reflexivity.
  - vm_compute. reflexivity.
  - reflexivity.
Defined.

Lemma hide_msg_saves_png_witness :
  let d := sample_store (flat_image 4 4 (200, 100, 51)) in
  let d' := (hide_msg sample_in sample_out "hi" "pw" d).2 in
  exists out im,
    d' = <[out := File PNG im]> d /\
    file_format <$> d' !! out = Some PNG /\
    (image_ext sample_out = true -> out = sample_out) /\
    (image_ext sample_out = false ->
       parent out = parent sample_out /\ exists stem, name out = stem +:+ ".png").
Proof.
  intros d d'.
  refine (hide_msg_saves_png sample_in sample_out "hi" "pw" d d' _).
  apply pair_from_fst. vm_compute. reflexivity.
Defined.

Lemma capacity_check_witness :
  let fits := File PNG (flat_image 4 6 (0, 0, 0)) in
  let small := File PNG (flat_image 2 2 (0, 0, 0)) in
  (8 * Z.of_nat (length (encrypt "hello!" "pw")) = 4 * 6 * 3 - 8 /\
   exists d', hide_msg sample_in sample_out "hello!" "pw"
                (sample_store (raster fits)) = (Ok tt, d')) /\
  hide_msg sample_in sample_out "hello!" "pw" (sample_store (raster small)) =
    (Raise (ValueError "Message too large for image capacity."),
     sample_store (raster small)).
Proof.
  intros fits small. split; [split; [by vm_compute|]|].
  - refine (proj1 (proj2 (proj2
      (capacity_check sample_in sample_out sample_out "hello!" "pw"
         (sample_store (raster fits)) fits _ _ _ _ _))) _);
      try discriminate; by vm_compute.
  - refine (proj2 (proj2 (proj2
      (capacity_check sample_in sample_out sample_out "hello!" "pw"
         (sample_store (raster small)) small _ _ _ _ _))) _);
      try discriminate; by vm_compute.
Defined.

(** ** Base64 *)

Lemma below_forallb (P : Z -> bool) (n : nat) :
  forallb P (below n) = true ->
  forall v, 0 <= v < Z.of_nat n -> P v = true.
Proof.
  intros H v Hv. rewrite forallb_forall in H. apply H.
  unfold below. rewrite in_map_iff. exists (Z.to_nat v).
  split; [lia|]. apply in_seq. lia.
Qed.

Lemma below_forallb2 (P : Z -> Z -> bool) (n : nat) :
  forallb (fun a => forallb (P a) (below n)) (below n) = true ->
  forall a b, 0 <= a < Z.of_nat n -> 0 <= b < Z.of_nat n -> P a b = true.
Proof.
  intros H a b Ha Hb.
  apply (below_forallb (P a) n); [|done].
  by apply (below_forallb (fun a => forallb (P a) (below n)) n).
Qed.

Lemma sextet_facts (v : Z) :
  in64 v = true ->
  (b2a v =? PAD) = false /\ 0 < b2a v < 128 /\ a2b (b2a v) = Some v.
Proof.
  intros Hv. unfold in64 in Hv. apply andb_prop in Hv as [H0 H1].
  assert (H : sextet_ok v = true).
  { apply (below_forallb sextet_ok 64); [by vm_compute | lia]. }
  unfold sextet_ok in H.
  apply andb_prop in H as [H Ha]. apply andb_prop in H as [H Hlt].
  apply andb_prop in H as [Hp Hpos].
  split; [by apply negb_true_iff|]. split; [lia|].
  destruct (a2b (b2a v)) as [v'|]; [|done]. f_equal. lia.
Qed.

Lemma quad01_facts (b0 b1 : Z) :
  is_byte b0 -> is_byte b1 ->
  in64 (s0 b0) = true /\ in64 (s1 b0 b1) = true /\
  Z.lor (Z.shiftl (s0 b0) 2) (Z.shiftr (s1 b0 b1) 4) = b0 /\
  Z.land (s1 b0 b1) 15 = Z.shiftr b1 4.
Proof.
  intros H0 H1.
  assert (H : quad01_ok b0 b1 = true)
    by (apply (below_forallb2 quad01_ok 256); [by vm_compute|done|done]).
  unfold quad01_ok in H.
  apply andb_prop in H as [H Hd]. apply andb_prop in H as [H Hc].
  apply andb_prop in H as [Ha Hb]. repeat split; try done; lia.
Qed.

Lemma quad12_facts (b1 b2 : Z) :
  is_byte b1 -> is_byte b2 ->
  in64 (s2 b1 b2) = true /\ in64 (s3 b2) = true /\
  Z.lor (Z.shiftl (Z.shiftr b1 4) 4) (Z.shiftr (s2 b1 b2) 2) = b1 /\
  Z.lor (Z.shiftl (Z.land (s2 b1 b2) 3) 6) (s3 b2) = b2.
Proof.
  intros H1 H2.
  assert (H : quad12_ok b1 b2 = true)
    by (apply (below_forallb2 quad12_ok 256); [by vm_compute|done|done]).
  unfold quad12_ok in H.
  apply andb_prop in H as [H Hd]. apply andb_prop in H as [H Hc].
  apply andb_prop in H as [Ha Hb]. repeat split; try done; lia.
Qed.

(** One character of the alphabet going through the decoder. *)
Lemma a2b_base64_sextet (v : Z) (s : list Z) (quad_pos : nat)
    (leftchar : Z) (pads : nat) :
  in64 v = true ->
  a2b_base64 (b2a v :: s) quad_pos leftchar pads =
  match quad_pos with
  | 0%nat => a2b_base64 s 1%nat v 0%nat
  | 1%nat => emit (Z.lor (Z.shiftl leftchar 2) (Z.shiftr v 4))
                  (a2b_base64 s 2%nat (Z.land v 15) 0%nat)
  | 2%nat => emit (Z.lor (Z.shiftl leftchar 4) (Z.shiftr v 2))
                  (a2b_base64 s 3%nat (Z.land v 3) 0%nat)
  | _ => emit (Z.lor (Z.shiftl leftchar 6) v) (a2b_base64 s 0%nat 0 0%nat)
  end.
Proof.
  intros Hv. destruct (sextet_facts v Hv) as (Hp & _ & Ha).
  cbn [a2b_base64]. by rewrite Hp, Ha.
Qed.

Lemma list_ind3 {A : Type} (P : list A -> Prop) :
  P [] -> (forall a, P [a]) -> (forall a b, P [a; b]) ->
  (forall a b c l, P l -> P (a :: b :: c :: l)) ->
  forall l, P l.
Proof.
  intros H0 H1 H2 H3.
  assert (H : forall l, P l /\ (forall a, P (a :: l)) /\ (forall a b, P (a :: b :: l))).
  { induction l as [|x l (IH0 & IH1 & IH2)]; [by repeat split|].
    split; [apply IH1|]. split; [intros a; apply IH2|].
    intros a b. by apply H3. }
  intros l. apply H.
Qed.

Lemma a2b_base64_encode (bs : list Z) :
  Forall is_byte bs -> a2b_base64 (b64encode bs) 0%nat 0 0%nat = Ok bs.
Proof.
  induction bs as [|b0|b0 b1|b0 b1 b2 rest IH] using list_ind3; intros Hb.
  - done.
  - apply Forall_cons in Hb as [H0 _].
    destruct (quad01_facts b0 0 H0) as (Ha & Hb & Hc & _); [done|].
    cbn [b64encode]. rewrite !a2b_base64_sextet by done.
    cbn [a2b_base64]. simpl. by rewrite Hc.
  - apply Forall_cons in Hb as [H0 Hb]. apply Forall_cons in Hb as [H1 _].
    destruct (quad01_facts b0 b1 H0 H1) as (Ha & Hb & Hc & Hd).
    destruct (quad12_facts b1 0 H1) as (He & _ & Hg & _); [done|].
    cbn [b64encode]. rewrite !a2b_base64_sextet by done.
    cbn [a2b_base64]. simpl. by rewrite Hc, Hd, Hg.
  - apply Forall_cons in Hb as [H0 Hb]. apply Forall_cons in Hb as [H1 Hb].
    apply Forall_cons in Hb as [H2 Hb].
    destruct (quad01_facts b0 b1 H0 H1) as (Ha & Hb' & Hc & Hd).
    destruct (quad12_facts b1 b2 H1 H2) as (He & Hf & Hg & Hh).
    cbn [b64encode]. rewrite !a2b_base64_sextet by done.
    rewrite IH by done. simpl. by rewrite Hc, Hd, Hg, Hh.
Qed.

(** The cipher text is made of ASCII characters, none of them NUL. *)
Lemma b64encode_alphabet (bs : list Z) :
  Forall is_byte bs -> Forall (fun c => 0 < c < 128) (b64encode bs).
Proof.
  induction bs as [|b0|b0 b1|b0 b1 b2 rest IH] using list_ind3; intros Hb.
  - done.
  - apply Forall_cons in Hb as [H0 _].
    destruct (quad01_facts b0 0 H0) as (Ha & Hb & _); [done|].
    cbn [b64encode]. repeat apply Forall_cons_2; try done;
      by apply sextet_facts.
  - apply Forall_cons in Hb as [H0 Hb]. apply Forall_cons in Hb as [H1 _].
    destruct (quad01_facts b0 b1 H0 H1) as (Ha & Hb & _).
    destruct (quad12_facts b1 0 H1) as (He & _); [done|].
    cbn [b64encode]. repeat apply Forall_cons_2; try done;
      by apply sextet_facts.
  - apply Forall_cons in Hb as [H0 Hb]. apply Forall_cons in Hb as [H1 Hb].
    apply Forall_cons in Hb as [H2 Hb].
    destruct (quad01_facts b0 b1 H0 H1) as (Ha & Hb' & _).
    destruct (quad12_facts b1 b2 H1 H2) as (He & Hf & _).
    cbn [b64encode]. repeat apply Forall_cons_2; try (by apply sextet_facts).
    by apply IH.
Qed.

Lemma b64encode_ascii (bs : list Z) :
  Forall is_byte bs -> forallb (fun c => c <? 128) (b64encode bs) = true.
Proof.
  intros Hb. apply forallb_forall. intros c Hc.
  apply b64encode_alphabet in Hb. rewrite Forall_forall in Hb.
  apply list_elem_of_In, Hb in Hc. lia.
Qed.

(** Decoding what was encoded gives the bytes back. *)
Lemma b64decode_b64encode (bs : list Z) :
  Forall is_byte bs -> b64decode (b64encode bs) = Ok bs.
Proof.
  intros Hb. unfold b64decode.
  rewrite b64encode_ascii by done. by apply a2b_base64_encode.
Qed.

(** ** Bytes and text *)

Lemma encode_is_byte (m : string) : Forall is_byte (encode m).
Proof.
  unfold encode. apply Forall_forall. intros b Hb.
  apply list_elem_of_fmap in Hb as (a & -> & _).
  pose proof (N_ascii_bounded a). unfold is_byte. lia.
Qed.

Lemma str_of_bytes_encode (m : string) : str_of_bytes (encode m) = m.
Proof.
  unfold str_of_bytes, encode. rewrite map_map.
  rewrite (map_ext _ id), map_id.
  - apply string_of_list_ascii_of_string.
  - intros a. rewrite N2Z.id. apply ascii_N_embedding.
Qed.

Lemma encode_str_of_bytes (bs : list Z) :
  Forall is_byte bs -> encode (str_of_bytes bs) = bs.
Proof.
  intros Hb. unfold str_of_bytes, encode.
  rewrite list_ascii_of_string_of_list_ascii, map_map.
  induction Hb as [|b bs Hb _ IH]; [done|]. simpl. rewrite IH. f_equal.
  unfold is_byte in Hb. rewrite N_ascii_embedding by lia. lia.
Qed.

Lemma be_bytes_is_byte (k : nat) (v : Z) : Forall is_byte (Sha256.be_bytes k v).
Proof.
  unfold Sha256.be_bytes. apply Forall_forall. intros b Hb.
  apply list_elem_of_fmap in Hb as (i & -> & _).
  change 0xFF with (Z.ones 8). rewrite Z.land_ones by lia.
  unfold is_byte. change 256 with (2 ^ 8). apply Z.mod_pos_bound. lia.
Qed.

Lemma digest_is_byte (m : list Z) : Forall is_byte (Sha256.digest m).
Proof.
  unfold Sha256.digest. rewrite !Forall_app.
  repeat split; apply be_bytes_is_byte.
Qed.

Lemma lxor_is_byte (a b : Z) : is_byte a -> is_byte b -> is_byte (Z.lxor a b).
Proof.
  intros Ha Hb.
  assert (H : xor_ok a b = true)
    by (apply (below_forallb2 xor_ok 256); [by vm_compute|done|done]).
  unfold xor_ok in H. apply andb_prop in H as [H0 H1]. unfold is_byte. lia.
Qed.

Lemma xor_is_byte (data : list Z) (key : string) :
  Forall is_byte data -> Forall is_byte (_xor data key).
Proof.
  intros Hd. apply Forall_lookup. intros i x Hx.
  destruct (lookup_lt_is_Some_2 data i) as [b Hb].
  { rewrite <- (xor_length data key). by eapply lookup_lt_Some. }
  destruct (xor_lookup data key i b Hb) as (k & Hk & Hx').
  rewrite Hx in Hx'. injection Hx' as ->.
  apply lxor_is_byte.
  - by eapply (proj1 (Forall_lookup _ _) Hd).
  - by eapply (proj1 (Forall_lookup _ _) (digest_is_byte (encode key))).
Qed.

(** ** Decrypting under another passphrase *)

Lemma decrypt_encrypt (m p1 p2 : string) :
  decrypt (encrypt m p1) p2 = decode (_xor (_xor (encode m) p1) p2).
Proof.
  unfold decrypt, encrypt.
  by rewrite b64decode_b64encode by apply xor_is_byte, encode_is_byte.
Qed.

Lemma lxor_cancel (b k1 k2 : Z) : Z.lxor (Z.lxor b k1) k2 = b <-> k1 = k2.
Proof.
  split.
  - intros H. apply Z.lxor_eq.
    rewrite <- (Z.lxor_nilpotent b), <- H at 1.
    rewrite (Z.lxor_comm (Z.lxor (Z.lxor b k1) k2) b).
    by rewrite <- !Z.lxor_assoc, Z.lxor_nilpotent, Z.lxor_0_l.
  - intros ->. by rewrite Z.lxor_assoc, Z.lxor_nilpotent, Z.lxor_0_r.
Qed.

(** Two passes of the stream cancel exactly when the two digests agree
    wherever the data reaches. *)
Lemma xor_twice (data : list Z) (p1 p2 : string) :
  _xor (_xor data p1) p2 = data <->
  forall i, (i < length data `min` 32)%nat ->
    Sha256.digest (encode p1) !! i = Sha256.digest (encode p2) !! i.
Proof.
  split.
  - intros H i Hi.
    destruct (lookup_lt_is_Some_2 data i) as [b Hb]; [lia|].
    destruct (xor_lookup data p1 i b Hb) as (k1 & Hk1 & Hx1).
    destruct (xor_lookup _ p2 i _ Hx1) as (k2 & Hk2 & Hx2).
    rewrite H, Hb in Hx2. injection Hx2 as Hx2. symmetry in Hx2.
    apply lxor_cancel in Hx2 as ->.
    rewrite Nat.mod_small in Hk1, Hk2 by lia. by rewrite Hk1, Hk2.
  - intros H. apply list_eq. intros i.
    destruct (data !! i) as [b|] eqn:Hb.
    + destruct (xor_lookup data p1 i b Hb) as (k1 & Hk1 & Hx1).
      destruct (xor_lookup _ p2 i _ Hx1) as (k2 & Hk2 & Hx2).
      rewrite Hx2. f_equal. apply lxor_cancel.
      apply lookup_lt_Some in Hb.
      assert (Hm : (i mod 32 < length data `min` 32)%nat).
      { pose proof (Nat.mod_upper_bound i 32).
        pose proof (Nat.Div0.mod_le i 32). lia. }
      specialize (H _ Hm). rewrite Hk1, Hk2 in H. by injection H.
    + apply lookup_ge_None. rewrite !xor_length. by apply lookup_ge_None.
Qed.

(** C9, as the code has it. Decrypting under [p2] what was encrypted under
    [p1] gives the message back exactly when the two SHA-256 digests agree on
    their first [min(len(m.encode()), 32)] bytes: where they differ on one of
    these bytes the outcome is another text or a failure, never [m]; where
    they agree on all of them, a well-formed [m] comes back unchanged. *)
Theorem wrong_passphrase (m p1 p2 : string) :
  let d1 := Sha256.digest (encode p1) in
  let d2 := Sha256.digest (encode p2) in
  let reach := (length (encode m) `min` 32)%nat in
  ((exists i, (i < reach)%nat /\ d1 !! i <> d2 !! i) ->
     try_decrypt (encrypt m p1) p2 <> Ok m) /\
  (utf8_valid (encode m) = true ->
     (forall i, (i < reach)%nat -> d1 !! i = d2 !! i) ->
     try_decrypt (encrypt m p1) p2 = Ok m).
Proof.
  intros d1 d2 reach. unfold try_decrypt. rewrite decrypt_encrypt.
  unfold decode. split.
  - intros (i & Hi & Hne) H.
    destruct (utf8_valid _) eqn:Hv; [|done]. injection H as H.
    apply (f_equal encode) in H.
    rewrite encode_str_of_bytes in H
      by apply xor_is_byte, xor_is_byte, encode_is_byte.
    by apply Hne, (proj1 (xor_twice _ _ _) H).
  - intros Hv H. rewrite (proj2 (xor_twice _ _ _) H), Hv.
    by rewrite str_of_bytes_encode.
Qed.

Lemma wrong_passphrase_witness :
  try_decrypt (encrypt "hi" "pw") "pass" <> Ok "hi" /\
  try_decrypt (encrypt "hi" "pw") "pw" = Ok "hi".
Proof.
  split.
  - refine (proj1 (wrong_passphrase "hi" "pw" "pass") _).
    exists 0%nat. split; [vm_compute; lia|]. by vm_compute.
  - refine (proj2 (wrong_passphrase "hi" "pw" "pw") _ _);
      [by vm_compute | done].
Defined.

(** The claim as the specification states it fails: two different
    passphrases whose digests start with the same two bytes return the
    two-byte message unchanged. *)
Lemma wrong_passphrase_counterexample :
  "pw" <> "wrong45816" /\
  try_decrypt (encrypt "hi" "pw") "wrong45816" = Ok "hi".
Proof. split; [discriminate|]. vm_compute. reflexivity. Qed.

(** ** Where [reveal_msg] departs from [hide_msg]

    [hide_msg] writes the terminator as the ninth, tenth, ... character of
    the stream, on a multiple of eight bits.  [reveal_msg] looks for eight
    zero bits each time it has read one more pixel, that is on the multiples
    of three, and converts to characters only afterwards. *)

(** C1 (round trip) fails on the code.  On a 10 x 10 image, ["abc"] hidden
    under ["pw"] is not revealed under ["pw"]: the terminator is seen one
    bit early, at bit 39, because the last cipher character ends in a zero
    bit, and the four-character cipher loses its last character.  The
    specification's own scenario, ["hi"] under ["pw"] on a 10 x 10 image,
    fails when the image is white: the terminator is at bits 32 to 39 and
    is never seen, because bits 40 and 41 are ones. *)
Theorem round_trip_fails :
  let black := sample_store (flat_image 10 10 (0, 0, 0)) in
  let white := sample_store (flat_image 10 10 (255, 255, 255)) in
  let r1 := hide_msg sample_in sample_png "abc" "pw" black in
  let r2 := hide_msg sample_in sample_png "hi" "pw" white in
  (r1.1 = Ok tt /\
   reveal_msg sample_png "pw" r1.2 =
     Raise (DecryptionFailed (binascii_Error "Incorrect padding"))) /\
  (r2.1 = Ok tt /\
   reveal_msg sample_png "pw" r2.2 =
     Raise (DecryptionFailed
       (ValueError "string argument should contain only ASCII characters"))).
Proof.
  intros black white r1 r2. repeat split; vm_compute; reflexivity.
Qed.

(** C2 (the terminator is recognised on an 8-bit boundary only) fails on the
    code.  First image: the low bits are 1 followed by eight zeros; no group
    of eight is zero, yet the code stops there and returns the empty text.
    Second image: the one that [hide_msg] makes of ["abc"]; the first zero
    group is the fifth, after the four characters "Uasx", yet the code
    returns "Uas". *)
Theorem terminator_off_boundary :
  let im1 := Image 3 1 [(1, 0, 0); (0, 0, 0); (0, 0, 0)] in
  let im2 :=
    Image 10 10
      (hide_rows (frame_bits (encrypt "abc" "pw")) 10 10
         (pixels (flat_image 10 10 (0, 0, 0)))).1 in
  (spec_extract im1 = None /\ extract im1 = []) /\
  (encrypt "abc" "pw" = encode "Uasx" /\
   spec_extract im2 = Some (encode "Uasx") /\
   extract im2 = encode "Uas").
Proof. intros im1 im2. repeat split; vm_compute; reflexivity. Qed.

(** C3 (no terminator means a "nothing hidden" error) fails on the code.
    Neither image has a zero group of eight low bits.  For the first the
    code returns the empty text; for the second it reports a failed
    decryption.  The mobile [reveal_msg] has no error for missing data. *)
Theorem no_terminator_no_error :
  let im1 := Image 3 1 [(0, 0, 0); (0, 0, 0); (0, 1, 1)] in
  let im2 := flat_image 3 1 (255, 255, 255) in
  (spec_extract im1 = None /\
   reveal_msg sample_in "pw" (sample_store im1) = Ok "") /\
  (spec_extract im2 = None /\
   reveal_msg sample_in "pw" (sample_store im2) =
     Raise (DecryptionFailed
       (ValueError "string argument should contain only ASCII characters"))).
Proof. intros im1 im2. repeat split; vm_compute; reflexivity. Qed.

(** The errors that the mobile [reveal_msg] can raise. *)
Lemma reveal_msg_errors (img : Path) (pwd : string) (d : gmap Path file)
    (e : exn) :
  reveal_msg img pwd d = Raise e ->
  e = ValueError "Input must be an image (png, jpg, jpeg, bmp, webp)." \/
  e = ValueError "Password cannot be empty." \/
  e = FileNotFoundError \/
  exists cause, e = DecryptionFailed cause.
Proof.
  unfold reveal_msg. destruct (image_ext img); simpl; [|intros [= <-]; auto].
  destruct (decide (pwd = "")); [intros [= <-]; auto|].
  unfold Image_open. destruct (d !! img); [|intros [= <-]; auto].
  unfold try_decrypt. destruct (decrypt _ _); [done|].
  intros [= <-]. eauto.
Qed.

(** The desktop variant does have that error: when the library finds
    nothing, [reveal_msg] raises "No hidden data found in image!" (inside
    its own [try], hence wrapped). *)
Lemma desktop_reveal_no_data
    (lsb_reveal : Path -> gmap Path file -> result (option (list Z)))
    (img : Path) (pwd : string) (d : gmap Path file) :
  image_ext img = true -> pwd <> "" -> lsb_reveal img d = Ok None ->
  Desktop.reveal_msg lsb_reveal img pwd d =
  Raise (DecryptionFailed (ValueError "No hidden data found in image!")).
Proof.
  intros Hs Hp Hr. unfold Desktop.reveal_msg. rewrite Hs, Hr. simpl.
  by destruct (decide (pwd = "")).
Qed.

(** ** What [hide_msg] leaves in the image

    Read the way the specification's extractor reads, the image that
    [hide_msg] stores carries the cipher text exactly, and the cipher text
    decrypts to the message: the writing side keeps its half of the
    protocol. *)

Lemma lsb_testbit (c : Z) : lsb c = Z.testbit c 0.
Proof.
  unfold lsb. change 1 with (Z.ones 1) at 1.
  rewrite Z.land_ones by lia. by rewrite Z.bit0_eqb.
Qed.

Lemma lsb_embed_channel (bits : list bool) (j : nat) (c : Z) :
  lsb (embed_channel bits j c) =
  if (j <? length bits)%nat then bits !!! j else lsb c.
Proof.
  destruct (Nat.ltb_spec j (length bits)).
  - by rewrite lsb_testbit, embed_channel_low.
  - by rewrite embed_channel_past.
Qed.

Lemma lsb_stream_embedded (bits : list bool) (px : list pixel) (k : nat) :
  flat_map lsb3 (imap (fun i => embed_pixel bits (k + i)) px) =
  imap (fun j o => if (3 * k + j <? length bits)%nat
                   then bits !!! (3 * k + j)%nat else o)
       (flat_map lsb3 px).
Proof.
  revert k. induction px as [|[[r g] b] px IH]; intros k; [done|].
  rewrite imap_cons. cbn [flat_map]. unfold lsb3 at 1 3. cbn [app].
  rewrite !imap_cons.
  f_equal; [|f_equal; [|f_equal]].
  - unfold embed_pixel. cbn [fst snd]. rewrite lsb_embed_channel.
    by replace (3 * (k + 0))%nat with (3 * k + 0)%nat by lia.
  - unfold embed_pixel, compose. cbn [fst snd]. rewrite lsb_embed_channel.
    by replace (3 * (k + 0) + 1)%nat with (3 * k + 1)%nat by lia.
  - unfold embed_pixel, compose. cbn [fst snd]. rewrite lsb_embed_channel.
    by replace (3 * (k + 0) + 2)%nat with (3 * k + 2)%nat by lia.
  - rewrite (imap_ext _ (fun i => embed_pixel bits (S k + i)))
      by (intros i p _; simpl; f_equal; lia).
    rewrite IH. apply imap_ext. intros j o _. unfold compose.
    by replace (3 * S k + j)%nat with (3 * k + S (S (S j)))%nat by lia.
Qed.

Lemma imap_prefix (bits l : list bool) :
  (length bits <= length l)%nat ->
  imap (fun j o => if (j <? length bits)%nat then bits !!! j else o) l =
  bits ++ drop (length bits) l.
Proof.
  revert l. induction bits as [|b bits IH]; intros l Hl.
  - simpl. rewrite drop_0. apply list_eq. intros i.
    rewrite list_lookup_imap. by destruct (l !! i).
  - destruct l as [|o l]; [simpl in Hl; lia|].
    rewrite imap_cons. simpl. f_equal. rewrite <- IH by (simpl in Hl; lia).
    apply imap_ext. intros j x _. unfold compose. simpl.
    by destruct (Nat.ltb_spec j (length bits)), (Nat.ltb_spec (S j) (S (length bits)));
      try lia.
Qed.

Lemma int2_format_08b (c : Z) : is_byte c -> int2 (format_08b c) = c.
Proof.
  intros Hc.
  assert (H : byte_bits_ok c = true)
    by (apply (below_forallb byte_bits_ok 256); [by vm_compute|done]).
  unfold byte_bits_ok in H. lia.
Qed.

Lemma spec_chars_step (c : Z) (tail : list bool) :
  spec_chars (format_08b c ++ tail) =
  if int2 (format_08b c) =? 0 then Some []
  else cons (int2 (format_08b c)) <$> spec_chars tail.
Proof. reflexivity. Qed.

Lemma spec_chars_frame (cipher : list Z) (rest : list bool) :
  Forall (fun c => 0 < c < 256) cipher ->
  spec_chars (frame_bits cipher ++ rest) = Some cipher.
Proof.
  intros Hc. unfold frame_bits.
  induction Hc as [|c cipher Hc _ IH].
  - cbn [app flat_map]. rewrite app_nil_r, spec_chars_step.
    by rewrite int2_format_08b.
  - cbn [app flat_map]. rewrite <- app_assoc, spec_chars_step.
    rewrite int2_format_08b by (unfold is_byte; lia).
    destruct (Z.eqb_spec c 0); [lia|]. by rewrite IH.
Qed.

Lemma lsb_stream_length (w h : nat) (px : list pixel) :
  length (lsb_stream (Image w h px)) = (3 * length px)%nat.
Proof.
  unfold lsb_stream. simpl. induction px as [|p px IH]; [done|].
  simpl. rewrite IH. lia.
Qed.

Lemma decrypt_own (m p : string) :
  utf8_valid (encode m) = true -> try_decrypt (encrypt m p) p = Ok m.
Proof.
  intros Hv. unfold try_decrypt. rewrite decrypt_encrypt.
  rewrite (proj2 (xor_twice _ _ _)) by done.
  unfold decode. by rewrite Hv, str_of_bytes_encode.
Qed.

(** The stored image, read in groups of eight low bits up to the first zero
    group, yields the cipher text, which decrypts to the message. *)
Theorem hide_msg_frame_aligned (img_in img_out : Path) (msg pwd : string)
    (d d' : gmap Path file) (f : file) :
  hide_msg img_in img_out msg pwd d = (Ok tt, d') ->
  d !! img_in = Some f ->
  wf_image (raster f) ->
  exists out f',
    out_path img_out = Ok out /\ d' !! out = Some f' /\
    spec_extract (raster f') = Some (encrypt msg pwd) /\
    (utf8_valid (encode msg) = true ->
       try_decrypt (encrypt msg pwd) pwd = Ok msg).
Proof.
  intros H Hf Hwf.
  apply hide_msg_ok_inv in H as (_ & _ & _ & out & f0 & Ho & Hf0 & Hcap & ->).
  rewrite Hf in Hf0. injection Hf0 as <-.
  set (bits := frame_bits (encrypt msg pwd)) in *.
  eexists out, _. split; [done|]. split; [by rewrite lookup_insert_eq|].
  assert (Hx : spec_extract
      (Image (width (raster f)) (height (raster f))
         (hide_rows bits (width (raster f)) (height (raster f))
            (pixels (raster f))).1) = Some (encrypt msg pwd)).
  { unfold spec_extract, lsb_stream. cbn [pixels raster].
    rewrite (hide_rows_spec bits) by (rewrite Hwf; lia).
    pose proof (lsb_stream_embedded bits (pixels (raster f)) 0) as Hs.
    rewrite (imap_ext _ (embed_pixel bits)) in Hs by done.
    rewrite Hs.
    rewrite (imap_ext _ (fun j o => if (j <? length bits)%nat
                                   then bits !!! j else o))
      by (intros j o _; by rewrite Nat.mul_0_r).
    rewrite imap_prefix.
    - apply spec_chars_frame.
      eapply Forall_impl; [apply b64encode_alphabet|].
      + apply xor_is_byte, encode_is_byte.
      + simpl. lia.
    - pose proof (lsb_stream_length 0 0 (pixels (raster f))) as Hl.
      unfold lsb_stream in Hl. simpl in Hl. rewrite Hl, Hwf. lia. }
  cbn [raster]. split; [done|]. apply decrypt_own.
Qed.

(** * Further properties of the codec *)

(** ** The two loops of [reveal_msg] as one pass *)

Lemma reveal_row_scan (w : nat) (px : list pixel) (y k x0 : nat)
    (bits : list bool) :
  (y * w + x0 + k <= length px)%nat ->
  reveal_row w px y (seq x0 k) bits =
  scan (take k (drop (y * w + x0) px)) bits.
Proof.
  revert x0 bits. induction k as [|k IH]; intros x0 bits Hlen; [done|].
  destruct (lookup_lt_is_Some_2 px (y * w + x0)%nat) as [p Hp]; [lia|].
  rewrite (drop_S _ _ _ Hp). cbn [seq take reveal_row scan].
  unfold getpixel. rewrite (list_lookup_total_correct _ _ _ Hp).
  destruct p as [[r g] b]. unfold lsb3. cbn [fst snd].
  destruct (terminated _); [done|].
  rewrite IH by lia. by replace (y * w + S x0)%nat with (S (y * w + x0)) by lia.
Qed.

Lemma scan_app (l1 l2 : list pixel) (bits : list bool) :
  scan (l1 ++ l2) bits =
  if (scan l1 bits).2 then scan l1 bits else scan l2 (scan l1 bits).1.
Proof.
  revert bits. induction l1 as [|p l1 IH]; intros bits; [done|].
  cbn [app scan]. destruct (terminated _); [done|]. apply IH.
Qed.

Lemma scan_broke (ps : list pixel) (bits : list bool) :
  (scan ps bits).2 = true \/ (scan ps bits).2 = false.
Proof. destruct (scan ps bits).2; auto. Qed.

Lemma reveal_rows_scan (w : nat) (px : list pixel) (k y0 : nat)
    (bits : list bool) :
  ((y0 + k) * w <= length px)%nat ->
  reveal_rows w px (seq y0 k) bits =
  (scan (take (k * w) (drop (y0 * w) px)) bits).1.
Proof.
  revert y0 bits. induction k as [|k IH]; intros y0 bits Hlen; [done|].
  cbn [seq reveal_rows].
  pose proof (reveal_row_scan w px y0 w 0 bits) as Hrow.
  rewrite Nat.add_0_r in Hrow. rewrite Hrow by lia.
  replace (S k * w)%nat with (w + k * w)%nat by lia.
  rewrite <- take_take_drop, scan_app, drop_drop.
  destruct (scan (take w (drop (y0 * w) px)) bits) as [bits' broke].
  cbn [fst snd]. destruct broke; [done|].
  rewrite IH by lia. by replace (S y0 * w)%nat with (y0 * w + w)%nat by lia.
Qed.

(** On a well-formed raster the two loops are one pass over the pixels. *)
Lemma extract_scan (img : image) :
  wf_image img -> extract img = chars_of_bits (scan (pixels img) []).1.
Proof.
  intros Hwf. unfold wf_image in Hwf. unfold extract.
  rewrite (reveal_rows_scan _ _ (height img) 0) by lia.
  rewrite drop_0. by rewrite take_ge by lia.
Qed.

(** ** Where the pass stops *)

Lemma take_lsb3 (p : pixel) (s : list bool) (q : nat) :
  take (3 * S q) (lsb3 p ++ s) = lsb3 p ++ take (3 * q) s.
Proof. by replace (3 * S q)%nat with (S (S (S (3 * q)))) by lia. Qed.

Lemma scan_run (ps : list pixel) (acc : list bool) :
  (forall q, (1 <= q <= length ps)%nat ->
     terminated (acc ++ take (3 * q) (flat_map lsb3 ps)) = false) ->
  scan ps acc = (acc ++ flat_map lsb3 ps, false).
Proof.
  revert acc. induction ps as [|p ps IH]; intros acc H.
  - simpl. by rewrite app_nil_r.
  - cbn [scan flat_map].
    pose proof (H 1%nat ltac:(simpl; lia)) as H1.
    cbn [flat_map] in H1. rewrite (take_lsb3 p _ 0) in H1.
    rewrite take_0, app_nil_r in H1. rewrite H1.
    rewrite IH; [by rewrite <- app_assoc|].
    intros q Hq. specialize (H (S q) ltac:(simpl; lia)).
    cbn [flat_map] in H. rewrite take_lsb3 in H. by rewrite <- app_assoc.
Qed.

Lemma scan_stop (ps : list pixel) (acc : list bool) (p : nat) :
  (forall q, (1 <= q <= p)%nat ->
     terminated (acc ++ take (3 * q) (flat_map lsb3 ps)) = false) ->
  (p < length ps)%nat ->
  terminated (acc ++ take (3 * S p) (flat_map lsb3 ps)) = true ->
  scan ps acc =
  (take (length acc + 3 * S p - 8) (acc ++ flat_map lsb3 ps), true).
Proof.
  revert acc p. induction ps as [|p0 ps IH]; intros acc p H Hp Ht;
    [simpl in Hp; lia|].
  cbn [scan flat_map]. cbn [flat_map] in Ht. rewrite take_lsb3 in Ht.
  destruct p as [|p].
  - rewrite take_0, app_nil_r in Ht. rewrite Ht. f_equal.
    rewrite (app_assoc acc).
    rewrite (take_app_le (acc ++ lsb3 p0))
      by (rewrite length_app; change (length (lsb3 p0)) with 3%nat; lia).
    f_equal. rewrite length_app. change (length (lsb3 p0)) with 3%nat. lia.
  - pose proof (H 1%nat ltac:(lia)) as H1.
    cbn [flat_map] in H1. rewrite (take_lsb3 p0 _ 0) in H1.
    rewrite take_0, app_nil_r in H1. rewrite H1.
    rewrite (IH (acc ++ lsb3 p0) p).
    + rewrite length_app. change (length (lsb3 p0)) with 3%nat.
      rewrite <- app_assoc. f_equal. f_equal. lia.
    + intros q Hq. specialize (H (S q) ltac:(lia)).
      cbn [flat_map] in H. rewrite take_lsb3 in H. by rewrite <- app_assoc.
    + simpl in Hp. lia.
    + by rewrite <- app_assoc.
Qed.

Lemma terminated_false (l : list bool) (i : nat) :
  l !! i = Some true -> (length l - 8 <= i)%nat -> terminated l = false.
Proof.
  intros Hi Hge. unfold terminated. apply andb_false_iff.
  destruct (Nat.leb_spec 8 (length l)); [right|by left].
  apply not_true_is_false. intros Hall. rewrite forallb_forall in Hall.
  assert (Hin : In true (drop (length l - 8) l)).
  { apply list_elem_of_In, list_elem_of_lookup. exists (i - (length l - 8))%nat.
    rewrite lookup_drop. by replace (length l - 8 + (i - (length l - 8)))%nat
      with i by lia. }
  by apply Hall in Hin.
Qed.

Lemma terminated_true (l : list bool) :
  (8 <= length l)%nat ->
  (forall i, (length l - 8 <= i < length l)%nat -> l !! i = Some false) ->
  terminated l = true.
Proof.
  intros Hlen H. unfold terminated. apply andb_true_iff. split.
  - by apply Nat.leb_le.
  - apply forallb_forall. intros b Hb.
    apply list_elem_of_In, list_elem_of_lookup in Hb as [j Hj].
    rewrite lookup_drop in Hj. rewrite H in Hj.
    + by injection Hj as <-.
    + apply lookup_lt_Some in Hj. lia.
Qed.

(** ** The low bits of an embedded raster *)

(** The stream of low bits after embedding: the frame, then what the source
    had. *)
Lemma embedded_stream (bits : list bool) (w h : nat) (px : list pixel) :
  length px = (w * h)%nat ->
  (length bits <= 3 * length px)%nat ->
  flat_map lsb3 (hide_rows bits w h px).1 =
  bits ++ drop (length bits) (flat_map lsb3 px).
Proof.
  intros Hwf Hcap. rewrite (hide_rows_spec bits) by done.
  pose proof (lsb_stream_embedded bits px 0) as Hs.
  rewrite (imap_ext _ (embed_pixel bits)) in Hs by done. rewrite Hs.
  rewrite (imap_ext _ (fun j o => if (j <? length bits)%nat
                                 then bits !!! j else o))
    by (intros j o _; by rewrite Nat.mul_0_r).
  apply imap_prefix.
  pose proof (lsb_stream_length 0 0 px) as Hl.
  unfold lsb_stream in Hl. simpl in Hl. lia.
Qed.

Lemma cipher_bits_length (cipher : list Z) :
  length (flat_map format_08b cipher) = (8 * length cipher)%nat.
Proof. induction cipher as [|c cipher IH]; [done|]. simpl in *. lia. Qed.

Lemma frame_bits_split (cipher : list Z) :
  frame_bits cipher = flat_map format_08b cipher ++ replicate 8 false.
Proof. unfold frame_bits. by rewrite flat_map_app. Qed.

Lemma cipher_bits_lookup (cipher : list Z) (j i : nat) (c : Z) :
  cipher !! j = Some c -> (i < 8)%nat ->
  flat_map format_08b cipher !! (8 * j + i)%nat = format_08b c !! i.
Proof.
  revert j. induction cipher as [|c0 cipher IH]; intros j Hj Hi; [done|].
  cbn [flat_map]. destruct j as [|j].
  - injection Hj as ->. rewrite lookup_app_l by (simpl; lia).
    by rewrite Nat.mul_0_r.
  - rewrite lookup_app_r by (simpl; lia).
    replace (8 * S j + i - length (format_08b c0))%nat with (8 * j + i)%nat
      by (simpl; lia).
    by apply IH.
Qed.

Lemma has_one_lookup (l : list bool) :
  has_one l = true -> exists i, l !! i = Some true.
Proof.
  unfold has_one. rewrite existsb_exists. intros (b & Hin & Hb).
  unfold id in Hb. subst b. by apply list_elem_of_In, list_elem_of_lookup in Hin.
Qed.

Lemma char_high_lookup (c : Z) :
  char_high c = true ->
  exists i, (1 <= i <= 2)%nat /\ format_08b c !! i = Some true.
Proof.
  intros H. apply has_one_lookup in H as [i Hi].
  pose proof (lookup_lt_Some _ _ _ Hi) as Hlt.
  rewrite length_take in Hlt.
  rewrite lookup_take_lt, lookup_drop in Hi by lia.
  exists (1 + i)%nat. split; [lia|done].
Qed.

Lemma char_low_lookup (c : Z) :
  char_low c = true ->
  exists i, (3 <= i < 8)%nat /\ format_08b c !! i = Some true.
Proof.
  intros H. apply has_one_lookup in H as [i Hi].
  rewrite lookup_drop in Hi. pose proof (lookup_lt_Some _ _ _ Hi) as Hlt.
  simpl in Hlt. exists (3 + i)%nat. split; [lia|done].
Qed.

Lemma low_one_lookup (m : nat) (c : Z) :
  (m <= 8)%nat -> low_one m c = true ->
  exists i, (8 - m <= i < 8)%nat /\ format_08b c !! i = Some true.
Proof.
  intros Hm H. apply has_one_lookup in H as [i Hi].
  rewrite lookup_drop in Hi. pose proof (lookup_lt_Some _ _ _ Hi) as Hlt.
  simpl in Hlt. exists (8 - m + i)%nat. split; [lia|done].
Qed.

Lemma low_bits_fact (c : Z) (m : nat) :
  is_byte c -> (1 <= m <= 3)%nat -> c mod 2 ^ Z.of_nat m <> 0 ->
  low_one m c = true.
Proof.
  intros Hc Hm Hne.
  assert (H : low_bits_ok c = true)
    by (apply (below_forallb low_bits_ok 256); [by vm_compute|done]).
  unfold low_bits_ok in H. rewrite forallb_forall in H.
  assert (Hin : In m [1%nat; 2%nat; 3%nat]) by (simpl; lia).
  apply H in Hin. apply orb_prop in Hin as [Hz|]; [|done].
  apply Z.eqb_eq in Hz. done.
Qed.

(** A property of all alphabet characters and of the pad holds of every
    character of an encoding. *)
Lemma b64encode_Forall (P : Z -> Prop) (bs : list Z) :
  (forall v, in64 v = true -> P (b2a v)) -> P PAD ->
  Forall is_byte bs -> Forall P (b64encode bs).
Proof.
  intros Hv Hpad.
  induction bs as [|b0|b0 b1|b0 b1 b2 rest IH] using list_ind3; intros Hb.
  - done.
  - apply Forall_cons in Hb as [H0 _].
    destruct (quad01_facts b0 0 H0) as (Ha & Hb & _); [done|].
    cbn [b64encode]. repeat apply Forall_cons_2; auto.
  - apply Forall_cons in Hb as [H0 Hb]. apply Forall_cons in Hb as [H1 _].
    destruct (quad01_facts b0 b1 H0 H1) as (Ha & Hb & _).
    destruct (quad12_facts b1 0 H1) as (He & _); [done|].
    cbn [b64encode]. repeat apply Forall_cons_2; auto.
  - apply Forall_cons in Hb as [H0 Hb]. apply Forall_cons in Hb as [H1 Hb].
    apply Forall_cons in Hb as [H2 Hb].
    destruct (quad01_facts b0 b1 H0 H1) as (Ha & Hb' & _).
    destruct (quad12_facts b1 b2 H1 H2) as (He & Hf & _).
    cbn [b64encode]. repeat apply Forall_cons_2; auto.
Qed.

Lemma cipher_char_bits (m p : string) :
  Forall (fun c => char_high c = true /\ char_low c = true) (encrypt m p).
Proof.
  unfold encrypt. apply b64encode_Forall.
  - intros v Hv. unfold in64 in Hv. apply andb_prop in Hv as [H0 H1].
    assert (H : sextet_bits_ok v = true)
      by (apply (below_forallb sextet_bits_ok 64); [by vm_compute|lia]).
    by apply andb_prop in H.
  - by vm_compute.
  - apply xor_is_byte, encode_is_byte.
Qed.

Lemma chars_of_bits_step (c : Z) (tail : list bool) :
  chars_of_bits (format_08b c ++ tail) =
  int2 (format_08b c) :: chars_of_bits tail.
Proof. reflexivity. Qed.

Lemma chars_of_bits_cipher (cipher : list Z) (rest : list bool) :
  Forall is_byte cipher -> (length rest < 8)%nat ->
  chars_of_bits (flat_map format_08b cipher ++ rest) = cipher.
Proof.
  intros Hc Hr. induction Hc as [|c cipher Hc _ IH].
  - simpl. do 8 (destruct rest as [|? rest]; [done|]). simpl in Hr. lia.
  - cbn [flat_map]. rewrite <- app_assoc, chars_of_bits_step.
    by rewrite int2_format_08b, IH.
Qed.

Lemma terminated_short (l : list bool) :
  (length l < 8)%nat -> terminated l = false.
Proof.
  intros H. unfold terminated. by destruct (Nat.leb_spec 8 (length l)); [lia|].
Qed.

(** No window of eight bits that ends at most [m] bits before the end of
    the terminator is all zero, when the last character has a one among
    its last [m] bits. *)
Lemma frame_no_early_stop (cipher : list Z) (tail : list bool) (c : Z)
    (m k : nat) :
  Forall (fun c => char_high c = true /\ char_low c = true) cipher ->
  last cipher = Some c -> (1 <= m <= 3)%nat -> low_one m c = true ->
  (k <= 8 * length cipher + 8 - m)%nat ->
  terminated (take k (flat_map format_08b cipher ++ tail)) = false.
Proof.
  intros Hbits Hlast Hm Hlow Hk.
  set (n := length cipher) in *. set (cb := flat_map format_08b cipher).
  assert (Hcb : length cb = (8 * n)%nat) by apply cipher_bits_length.
  assert (Hn : (1 <= n)%nat).
  { destruct cipher; [done|]. unfold n. simpl. lia. }
  destruct (Nat.lt_ge_cases k 8) as [Hsmall|Hbig].
  { apply terminated_short. rewrite length_take. lia. }
  assert (Hfind : exists idx, (k - 8 <= idx < k)%nat /\ (idx < 8 * n)%nat /\
                              cb !! idx = Some true).
  { destruct (Nat.le_gt_cases k (8 * n)) as [Hin|Hout].
    - set (j := ((k - 8) / 8)%nat). set (o := ((k - 8) mod 8)%nat).
      assert (Hs : (k - 8 = 8 * j + o)%nat) by (apply Nat.div_mod_eq).
      assert (Ho : (o < 8)%nat) by (apply Nat.mod_upper_bound; lia).
      destruct (Nat.le_gt_cases o 3) as [Ho3|Ho4].
      + destruct (lookup_lt_is_Some_2 cipher j) as [cj Hcj]; [fold n; lia|].
        pose proof (proj1 (Forall_lookup _ _) Hbits j cj Hcj) as [_ Hl].
        apply char_low_lookup in Hl as (i & Hi & Hbit).
        exists (8 * j + i)%nat. split; [lia|]. split; [lia|].
        unfold cb. by rewrite (cipher_bits_lookup _ _ _ _ Hcj) by lia.
      + destruct (lookup_lt_is_Some_2 cipher (S j)) as [cj Hcj]; [fold n; lia|].
        pose proof (proj1 (Forall_lookup _ _) Hbits (S j) cj Hcj) as [Hh _].
        apply char_high_lookup in Hh as (i & Hi & Hbit).
        exists (8 * S j + i)%nat. split; [lia|]. split; [lia|].
        unfold cb. by rewrite (cipher_bits_lookup _ _ _ _ Hcj) by lia.
    - rewrite last_lookup in Hlast. fold n in Hlast.
      apply low_one_lookup in Hlow as (i & Hi & Hbit); [|lia].
      exists (8 * pred n + i)%nat. split; [lia|]. split; [lia|].
      unfold cb. by rewrite (cipher_bits_lookup _ _ _ _ Hlast) by lia. }
  destruct Hfind as (idx & Hwin & Hlt & Hbit).
  apply (terminated_false _ idx).
  - rewrite lookup_take_lt by lia. by rewrite lookup_app_l by lia.
  - rewrite length_take. lia.
Qed.

(** The pass over an embedded raster stops exactly at the first multiple of
    three bits after the terminator and gives the cipher text back, when the
    last character has a one among its last [3 - e] bits and the [e] source
    bits that follow the terminator are zero. *)
Lemma extract_embedded (cipher : list Z) (w h : nat) (px : list pixel) (c : Z) :
  let n := length cipher in
  let e := ((n + 1) mod 3)%nat in
  Forall is_byte cipher ->
  Forall (fun c => char_high c = true /\ char_low c = true) cipher ->
  length px = (w * h)%nat ->
  (length (frame_bits cipher) <= 3 * length px)%nat ->
  last cipher = Some c -> c mod 2 ^ Z.of_nat (3 - e) <> 0 ->
  (forall i, (8 * n + 8 <= i < 8 * n + 8 + e)%nat ->
     flat_map lsb3 px !! i = Some false) ->
  chars_of_bits (scan (hide_rows (frame_bits cipher) w h px).1 []).1 = cipher.
Proof.
  intros n e Hbytes Hbits Hwf Hcap Hlast Hc Hclean.
  assert (He : (e < 3)%nat) by (apply Nat.mod_upper_bound; lia).
  assert (Hfl : length (frame_bits cipher) = (8 * n + 8)%nat)
    by apply frame_bits_length.
  set (p := ((8 * n + 8 + e) / 3)%nat).
  assert (Hp : (3 * p = 8 * n + 8 + e)%nat).
  { unfold p, e. pose proof (Nat.div_mod_eq (n + 1) 3).
    pose proof (Nat.div_mod_eq (8 * n + 8 + (n + 1) mod 3) 3).
    pose proof (Nat.mod_upper_bound (8 * n + 8 + (n + 1) mod 3) 3).
    pose proof (Nat.mod_upper_bound (n + 1) 3). lia. }
  assert (Hlow : low_one (3 - e) c = true).
  { apply low_bits_fact; [|lia|done].
    rewrite last_lookup in Hlast.
    by apply (proj1 (Forall_lookup _ _) Hbytes _ _ Hlast). }
  set (px' := (hide_rows (frame_bits cipher) w h px).1).
  assert (Hstream : flat_map lsb3 px' =
    flat_map format_08b cipher ++
      (replicate 8 false ++ drop (8 * n + 8) (flat_map lsb3 px))).
  { unfold px'. rewrite embedded_stream by done.
    by rewrite Hfl, frame_bits_split, <- app_assoc. }
  assert (Hlen' : length px' = length px).
  { unfold px'. rewrite (hide_rows_spec _ w h) by done. by rewrite length_imap. }
  assert (Hslen : length (flat_map lsb3 px) = (3 * length px)%nat).
  { pose proof (lsb_stream_length 0 0 px) as Hl. by unfold lsb_stream in Hl. }
  assert (Hpos : (1 <= p)%nat) by lia.
  rewrite (scan_stop px' [] (pred p)).
  - cbn [fst length app]. rewrite Hstream.
    replace (0 + 3 * S (pred p) - 8)%nat with (8 * n + e)%nat by lia.
    rewrite take_app_ge by (rewrite cipher_bits_length; fold n; lia).
    rewrite cipher_bits_length. fold n.
    apply chars_of_bits_cipher; [done|].
    rewrite length_take. lia.
  - intros q Hq. cbn [app]. rewrite Hstream.
    apply (frame_no_early_stop _ _ c (3 - e)); try done; [lia|].
    fold n. lia.
  - lia.
  - cbn [app]. replace (S (pred p)) with p by lia. rewrite Hp.
    apply terminated_true.
    + rewrite length_take. rewrite Hstream, !length_app, cipher_bits_length.
      rewrite length_replicate, length_drop, Hslen. fold n. lia.
    + intros i Hi. rewrite length_take in Hi.
      assert (Hle : (8 * n + 8 + e <= length (flat_map lsb3 px'))%nat).
      { rewrite Hstream, !length_app, cipher_bits_length.
        rewrite length_replicate, length_drop, Hslen. fold n. lia. }
      rewrite lookup_take_lt by lia. rewrite Hstream.
      rewrite lookup_app_r by (rewrite cipher_bits_length; fold n; lia).
      rewrite cipher_bits_length. fold n.
      destruct (Nat.lt_ge_cases i (8 * n + 8)) as [Hz|Hs].
      * rewrite lookup_app_l by (rewrite length_replicate; lia).
        apply lookup_replicate_2. lia.
      * rewrite lookup_app_r by (rewrite length_replicate; lia).
        rewrite length_replicate, lookup_drop.
        replace (8 * n + 8 + (i - 8 * n - 8))%nat with i by lia.
        apply Hclean. lia.
Qed.

(** ** The output path *)

Lemma list_ascii_of_string_app (a b : string) :
  list_ascii_of_string (a +:+ b) = list_ascii_of_string a ++ list_ascii_of_string b.
Proof. induction a as [|x a IH]; [done|]. simpl. by rewrite IH. Qed.

Lemma string_length_of_list (l : list ascii) :
  String.length (string_of_list_ascii l) = length l.
Proof. induction l as [|x l IH]; [done|]. simpl. by rewrite IH. Qed.

Lemma rfind_from_app (c : ascii) (l1 l2 : list ascii) (i found : Z) :
  rfind_from c (l1 ++ l2) i found =
  rfind_from c l2 (i + Z.of_nat (length l1)) (rfind_from c l1 i found).
Proof.
  revert i found. induction l1 as [|a l1 IH]; intros i found.
  - simpl. by rewrite Z.add_0_r.
  - cbn [app rfind_from length]. rewrite IH. f_equal. lia.
Qed.

(** The suffix of a name that ends in ".png" after a non-empty stem. *)
Lemma suffix_png (par : string) (stem : list ascii) :
  stem <> [] ->
  suffix (mkPath par (string_of_list_ascii stem +:+ ".png")) = ".png".
Proof.
  intros Hne. unfold suffix. cbn [name].
  rewrite list_ascii_of_string_app, list_ascii_of_string_of_list_ascii.
  unfold rfind. rewrite rfind_from_app. cbn [list_ascii_of_string rfind_from].
  change (Ascii.eqb "." dot) with true. change (Ascii.eqb "p" dot) with false.
  change (Ascii.eqb "n" dot) with false. change (Ascii.eqb "g" dot) with false.
  cbv iota. rewrite length_app. cbn [length].
  assert (Hl : (0 < length stem)%nat) by (destruct stem; [done|simpl; lia]).
  destruct (Z.ltb_spec 0 (0 + Z.of_nat (length stem))); [|lia].
  destruct (Z.ltb_spec (0 + Z.of_nat (length stem))
              (Z.of_nat (length stem + 4) - 1)); [|lia].
  cbn [andb]. replace (Z.to_nat (0 + Z.of_nat (length stem))) with (length stem) by lia.
  by rewrite drop_app_length.
Qed.

Lemma with_suffix_png (p q : Path) :
  with_suffix p ".png" = Ok q -> suffix q = ".png".
Proof.
  unfold with_suffix. destruct (decide (name p = "")) as [|Hn]; [done|].
  destruct (decide (suffix p = "")) as [Hs|Hs]; intros [= <-].
  - rewrite <- (string_of_list_ascii_of_string (name p)). apply suffix_png.
    intros E. apply Hn. rewrite <- (string_of_list_ascii_of_string (name p)).
    by rewrite E.
  - apply suffix_png. unfold suffix in *.
    set (n := list_ascii_of_string (name p)) in *.
    set (i := rfind dot n) in *.
    destruct ((0 <? i) && (i <? Z.of_nat (length n) - 1)) eqn:Hc; [|done].
    apply andb_prop in Hc as [H0 H1].
    apply Z.ltb_lt in H0. apply Z.ltb_lt in H1.
    rewrite string_length_of_list, length_drop.
    intros E. apply (f_equal length) in E. rewrite length_take in E.
    simpl in E. lia.
Qed.

(** The path that [hide_msg] writes to always has an image extension. *)
Lemma out_path_image_ext (img_out out : Path) :
  out_path img_out = Ok out -> image_ext out = true.
Proof.
  unfold out_path. destruct (image_ext img_out) eqn:He.
  - by intros [= <-].
  - intros Hw. apply with_suffix_png in Hw.
    unfold image_ext, ext. by rewrite Hw.
Qed.

(** ** [hide_msg] followed by [reveal_msg] *)

Lemma b64encode_length (bs : list Z) :
  length (b64encode bs) = (4 * ((length bs + 2) / 3))%nat.
Proof.
  induction bs as [|b0|b0 b1|b0 b1 b2 rest IH] using list_ind3; try done.
  cbn [b64encode length]. rewrite IH.
  replace (S (S (S (length rest))) + 2)%nat with (length rest + 2 + 1 * 3)%nat by lia.
  rewrite Nat.div_add by lia. lia.
Qed.

Lemma b64encode_last_pad (bs : list Z) :
  (length bs mod 3 <> 0)%nat -> last (b64encode bs) = Some PAD.
Proof.
  induction bs as [|b0|b0 b1|b0 b1 b2 rest IH] using list_ind3; intros H;
    try done.
  cbn [b64encode]. cbn [length] in H.
  replace (S (S (S (length rest)))) with (length rest + 1 * 3)%nat in H by lia.
  rewrite Nat.Div0.mod_add in H. specialize (IH H).
  destruct (b64encode rest) as [|x l] eqn:E; [done|].
  exact IH.
Qed.

Lemma encrypt_length (m p : string) :
  length (encrypt m p) = (4 * ((length (encode m) + 2) / 3))%nat.
Proof. unfold encrypt. by rewrite b64encode_length, xor_length. Qed.

(** The saved raster of a successful [hide_msg]. *)
Lemma hide_msg_stored (img_in img_out : Path) (msg pwd : string)
    (d d' : gmap Path file) (f : file) :
  hide_msg img_in img_out msg pwd d = (Ok tt, d') ->
  d !! img_in = Some f ->
  exists out,
    out_path img_out = Ok out /\ image_ext out = true /\ pwd <> "" /\
    (length (frame_bits (encrypt msg pwd))
       <= width (raster f) * height (raster f) * 3)%nat /\
    d' = <[out := File PNG
             (Image (width (raster f)) (height (raster f))
                (hide_rows (frame_bits (encrypt msg pwd)) (width (raster f))
                   (height (raster f)) (pixels (raster f))).1)]> d.
Proof.
  intros H Hf.
  apply hide_msg_ok_inv in H as (_ & _ & Hp & out & f0 & Ho & Hf0 & Hcap & ->).
  rewrite Hf in Hf0. injection Hf0 as <-.
  exists out. repeat split; try done. by eapply out_path_image_ext.
Qed.

Lemma reveal_msg_stored (out : Path) (pwd : string) (d : gmap Path file)
    (img : image) :
  image_ext out = true -> pwd <> "" ->
  reveal_msg out pwd (<[out := File PNG img]> d) = try_decrypt (extract img) pwd.
Proof.
  intros He Hp. unfold reveal_msg, Image_open. rewrite He, lookup_insert_eq.
  simpl. by destruct (decide (pwd = "")).
Qed.

(** X1. Decrypting a cipher text under the passphrase that made it gives
    the message back, for every passphrase and every well-formed message:
    [_xor(b64decode(b64encode(_xor(m.encode(), p)).decode()), p).decode()]
    is [m]. *)
Theorem frame_round_trip (msg pwd : string) :
  utf8_valid (encode msg) = true ->
  decrypt (encrypt msg pwd) pwd = Ok msg /\
  try_decrypt (encrypt msg pwd) pwd = Ok msg.
Proof.
  intros Hv. pose proof (decrypt_own msg pwd Hv) as H. split; [|done].
  unfold try_decrypt in H. by destruct (decrypt _ _).
Qed.

Lemma frame_round_trip_witness :
  decrypt (encrypt "hi" "pw") "pw" = Ok "hi" /\
  try_decrypt (encrypt "hi" "pw") "pw" = Ok "hi".
Proof. refine (frame_round_trip "hi" "pw" _). vm_compute. reflexivity. Defined.



(** What [reveal_msg] decrypts after [hide_msg], under any passphrase. *)
Lemma reveal_hidden_cipher (img_in img_out : Path) (msg pwd pwd' : string)
    (d d' : gmap Path file) (f : file) (c : Z) :
  hide_msg img_in img_out msg pwd d = (Ok tt, d') ->
  d !! img_in = Some f ->
  wf_image (raster f) ->
  pwd' <> "" ->
  let n := length (encrypt msg pwd) in
  let e := ((n + 1) mod 3)%nat in
  last (encrypt msg pwd) = Some c ->
  c mod 2 ^ Z.of_nat (3 - e) <> 0 ->
  (forall i, (8 * n + 8 <= i < 8 * n + 8 + e)%nat ->
     lsb_stream (raster f) !! i = Some false) ->
  exists out,
    out_path img_out = Ok out /\
    reveal_msg out pwd' d' = try_decrypt (encrypt msg pwd) pwd'.
Proof.
  intros H Hf Hwf Hp' n e Hlast Hc Hclean.
  destruct (hide_msg_stored _ _ _ _ _ _ _ H Hf) as (out & Ho & He & Hp & Hcap & ->).
  exists out. split; [done|].
  rewrite reveal_msg_stored by done.
  rewrite extract_scan by (unfold wf_image in *; cbn [pixels width height];
    rewrite (hide_rows_spec _ (width (raster f)) (height (raster f))) by done;
    by rewrite length_imap).
  cbn [pixels]. unfold wf_image in Hwf.
  rewrite (extract_embedded _ _ _ _ c); try done.
  - eapply Forall_impl; [apply b64encode_alphabet, xor_is_byte, encode_is_byte|].
    intros x Hx. unfold is_byte. simpl in Hx. lia.
  - apply cipher_char_bits.
  - rewrite Hwf. lia.
Qed.

(** X3. [reveal_msg] gives back what [hide_msg] hid under the same
    passphrase when the terminator is found where it was written.  With [n]
    cipher characters and [e = (n + 1) mod 3] (the number of bits from the
    end of the terminator to the next multiple of three), that is the case
    when the last cipher character has a one among its last [3 - e] bits and
    the [e] source channels that follow the frame have a zero low bit. *)
Theorem reveal_after_hide (img_in img_out : Path) (msg pwd : string)
    (d d' : gmap Path file) (f : file) (c : Z) :
  hide_msg img_in img_out msg pwd d = (Ok tt, d') ->
  d !! img_in = Some f ->
  wf_image (raster f) ->
  utf8_valid (encode msg) = true ->
  let n := length (encrypt msg pwd) in
  let e := ((n + 1) mod 3)%nat in
  last (encrypt msg pwd) = Some c ->
  c mod 2 ^ Z.of_nat (3 - e) <> 0 ->
  (forall i, (8 * n + 8 <= i < 8 * n + 8 + e)%nat ->
     lsb_stream (raster f) !! i = Some false) ->
  exists out, out_path img_out = Ok out /\ reveal_msg out pwd d' = Ok msg.
Proof.
  intros H Hf Hwf Hv n e Hlast Hc Hclean.
  pose proof (hide_msg_ok_inv _ _ _ _ _ _ _ H) as (_ & _ & Hp & _).
  destruct (reveal_hidden_cipher _ _ _ _ pwd _ _ _ _ H Hf Hwf Hp Hlast Hc Hclean)
    as (out & Ho & Hr).
  exists out. split; [done|]. rewrite Hr. by apply decrypt_own.
Qed.

Lemma reveal_after_hide_witness :
  let f := File PNG (flat_image 4 4 (0, 0, 0)) in
  let d := sample_store (raster f) in
  let d' := (hide_msg sample_in sample_out "hi" "pw" d).2 in
  exists out, out_path sample_out = Ok out /\ reveal_msg out "pw" d' = Ok "hi".
Proof.
  intros f d d'.
  assert (En : length (encrypt "hi" "pw") = 4%nat) by (vm_compute; reflexivity).
  refine (reveal_after_hide sample_in sample_out "hi" "pw" d d' f 61
            _ _ _ _ _ _ _).
  - apply pair_from_fst. vm_compute. reflexivity.
  - vm_compute. reflexivity.
  - reflexivity.
  - vm_compute. reflexivity.
  - vm_compute. reflexivity.
  - rewrite En. vm_compute. discriminate.
  - rewrite En. intros i Hi.
    assert (Hi' : i = 40%nat \/ i = 41%nat) by (simpl in Hi; lia).
    destruct Hi' as [-> | ->]; vm_compute; reflexivity.
Defined.

(** X4. A message of 4, 5, 13, 14, 22, 23, ... bytes (not a multiple of
    three, and [ceil(len / 3) mod 3 = 2]) is revealed unchanged from every
    image that had room for it: its cipher ends in the pad character and
    its frame ends on a multiple of three bits. *)
Theorem reveal_after_hide_by_length (img_in img_out : Path) (msg pwd : string)
    (d d' : gmap Path file) (f : file) :
  hide_msg img_in img_out msg pwd d = (Ok tt, d') ->
  d !! img_in = Some f ->
  wf_image (raster f) ->
  utf8_valid (encode msg) = true ->
  (length (encode msg) mod 3 <> 0)%nat ->
  (((length (encode msg) + 2) / 3) mod 3 = 2)%nat ->
  exists out, out_path img_out = Ok out /\ reveal_msg out pwd d' = Ok msg.
Proof.
  intros H Hf Hwf Hv Hpad Hlen.
  assert (He : ((length (encrypt msg pwd) + 1) mod 3 = 0)%nat).
  { rewrite encrypt_length.
    pose proof (Nat.div_mod_eq ((length (encode msg) + 2) / 3) 3).
    pose proof (Nat.div_mod_eq (4 * ((length (encode msg) + 2) / 3) + 1) 3).
    pose proof (Nat.mod_upper_bound (4 * ((length (encode msg) + 2) / 3) + 1) 3).
    lia. }
  pose proof (hide_msg_ok_inv _ _ _ _ _ _ _ H) as (_ & _ & Hp & _).
  destruct (reveal_hidden_cipher img_in img_out msg pwd pwd d d' f PAD)
    as (out & Ho & Hr); try done.
  - unfold encrypt. apply b64encode_last_pad. by rewrite xor_length.
  - rewrite He. by vm_compute.
  - rewrite He. intros i Hi. lia.
  - exists out. split; [done|]. rewrite Hr. by apply decrypt_own.
Qed.

Lemma reveal_after_hide_by_length_witness :
  let f := File PNG (flat_image 5 5 (255, 255, 255)) in
  let d := sample_store (raster f) in
  let d' := (hide_msg sample_in sample_out "abcd" "pw" d).2 in
  exists out, out_path sample_out = Ok out /\ reveal_msg out "pw" d' = Ok "abcd".
Proof.
  intros f d d'.
  refine (reveal_after_hide_by_length sample_in sample_out "abcd" "pw" d d' f
            _ _ _ _ _ _).
  - apply pair_from_fst. vm_compute. reflexivity.
  - vm_compute. reflexivity.
  - reflexivity.
  - vm_compute. reflexivity.
  - vm_compute. discriminate.
  - vm_compute. reflexivity.
Defined.

(** X5. Under the conditions of X3, revealing with another passphrase whose
    digest differs from the right one on a byte that the message reaches
    never gives the message: the outcome is another text or a failed
    decryption. *)
Theorem reveal_other_passphrase (img_in img_out : Path) (msg pwd pwd' : string)
    (d d' : gmap Path file) (f : file) (c : Z) :
  hide_msg img_in img_out msg pwd d = (Ok tt, d') ->
  d !! img_in = Some f ->
  wf_image (raster f) ->
  pwd' <> "" ->
  let n := length (encrypt msg pwd) in
  let e := ((n + 1) mod 3)%nat in
  last (encrypt msg pwd) = Some c ->
  c mod 2 ^ Z.of_nat (3 - e) <> 0 ->
  (forall i, (8 * n + 8 <= i < 8 * n + 8 + e)%nat ->
     lsb_stream (raster f) !! i = Some false) ->
  (exists i, (i < length (encode msg) `min` 32)%nat /\
     Sha256.digest (encode pwd) !! i <> Sha256.digest (encode pwd') !! i) ->
  exists out,
    out_path img_out = Ok out /\
    reveal_msg out pwd' d' <> Ok msg /\
    ((exists s, reveal_msg out pwd' d' = Ok s) \/
     (exists cause, reveal_msg out pwd' d' = Raise (DecryptionFailed cause))).
Proof.
  intros H Hf Hwf Hp' n e Hlast Hc Hclean (i & Hi & Hne).
  destruct (reveal_hidden_cipher _ _ _ _ pwd' _ _ _ _ H Hf Hwf Hp' Hlast Hc Hclean)
    as (out & Ho & Hr).
  exists out. split; [done|]. rewrite Hr. split.
  - unfold try_decrypt. rewrite decrypt_encrypt. unfold decode.
    destruct (utf8_valid _) eqn:Hv; [|done]. intros [= E].
    apply (f_equal encode) in E.
    rewrite encode_str_of_bytes in E
      by apply xor_is_byte, xor_is_byte, encode_is_byte.
    by apply Hne, (proj1 (xor_twice _ _ _) E).
  - unfold try_decrypt. destruct (decrypt _ _); eauto.
Qed.

Lemma reveal_other_passphrase_witness :
  let f := File PNG (flat_image 4 4 (0, 0, 0)) in
  let d := sample_store (raster f) in
  let d' := (hide_msg sample_in sample_out "hi" "pw" d).2 in
  exists out,
    out_path sample_out = Ok out /\
    reveal_msg out "pass" d' <> Ok "hi" /\
    ((exists s, reveal_msg out "pass" d' = Ok s) \/
     (exists cause, reveal_msg out "pass" d' = Raise (DecryptionFailed cause))).
Proof.
  intros f d d'.
  assert (En : length (encrypt "hi" "pw") = 4%nat) by (vm_compute; reflexivity).
  refine (reveal_other_passphrase sample_in sample_out "hi" "pw" "pass" d d' f 61
            _ _ _ _ _ _ _ _).
  - apply pair_from_fst. vm_compute. reflexivity.
  - vm_compute. reflexivity.
  - reflexivity.
  - discriminate.
  - vm_compute. reflexivity.
  - rewrite En. vm_compute. discriminate.
  - rewrite En. intros i Hi.
    assert (Hi' : i = 40%nat \/ i = 41%nat) by (simpl in Hi; lia).
    destruct Hi' as [-> | ->]; vm_compute; reflexivity.
  - exists 0%nat. split; [vm_compute; lia|]. by vm_compute.
Defined.

(** X7. The cipher text is made of ASCII characters, none of them NUL, four
    for every three bytes of the message (rounded up), so that each
    character is exactly eight binary digits, the terminator is the only
    zero byte of the frame, and the frame has [32 * ceil(len / 3) + 8]
    bits. *)
Theorem cipher_text_shape (msg pwd : string) :
  Forall (fun c => 0 < c < 128) (encrypt msg pwd) /\
  length (encrypt msg pwd) = (4 * ((length (encode msg) + 2) / 3))%nat /\
  length (frame_bits (encrypt msg pwd)) =
    (32 * ((length (encode msg) + 2) / 3) + 8)%nat.
Proof.
  split; [apply b64encode_alphabet, xor_is_byte, encode_is_byte|].
  split; [apply encrypt_length|].
  rewrite frame_bits_length, encrypt_length. lia.
Qed.

(** X8. The capacity check in bytes of the message: once the arguments are
    accepted and the source image is open, [hide_msg] succeeds exactly when
    [32 * ceil(len(msg.encode()) / 3) + 8 <= width * height * 3]. *)
Theorem capacity_in_bytes (img_in img_out out : Path) (msg pwd : string)
    (d : gmap Path file) (f : file) :
  image_ext img_in = true -> msg <> "" -> pwd <> "" ->
  out_path img_out = Ok out -> d !! img_in = Some f ->
  (exists d', hide_msg img_in img_out msg pwd d = (Ok tt, d')) <->
  (32 * ((length (encode msg) + 2) / 3) + 8
     <= width (raster f) * height (raster f) * 3)%nat.
Proof.
  intros Hs Hm Hp Ho Hf. rewrite hide_msg_checked by done.
  rewrite Ho. unfold Image_open. rewrite Hf. cbv zeta.
  rewrite frame_bits_length, encrypt_length.
  destruct (Nat.ltb_spec (width (raster f) * height (raster f) * 3)
              (8 * (4 * ((length (encode msg) + 2) / 3)) + 8)); split.
  - by intros [d' [=]].
  - lia.
  - lia.
  - eauto.
Qed.

Lemma capacity_in_bytes_witness :
  let f := File PNG (flat_image 4 6 (0, 0, 0)) in
  let d := sample_store (raster f) in
  (exists d', hide_msg sample_in sample_out "hello!" "pw" d = (Ok tt, d')) <->
  (32 * ((length (encode "hello!") + 2) / 3) + 8
     <= width (raster f) * height (raster f) * 3)%nat.
Proof.
  intros f d.
  refine (capacity_in_bytes sample_in sample_out sample_out "hello!" "pw" d f
            _ _ _ _ _); try discriminate; by vm_compute.
Defined.

(** X6. [reveal_msg] accepts what [hide_msg] wrote: the path that was written
    has an image extension (also after the renaming to ".png"), the file is
    there, and with a passphrase that is not empty the outcome is a text or
    a failed decryption, never one of the argument errors. *)
Theorem reveal_accepts_hidden (img_in img_out : Path) (msg pwd : string)
    (d d' : gmap Path file) (pwd' : string) :
  hide_msg img_in img_out msg pwd d = (Ok tt, d') ->
  pwd' <> "" ->
  exists out,
    out_path img_out = Ok out /\ image_ext out = true /\
    ((exists s, reveal_msg out pwd' d' = Ok s) \/
     (exists cause, reveal_msg out pwd' d' = Raise (DecryptionFailed cause))).
Proof.
  intros H Hp'.
  pose proof (hide_msg_ok_inv _ _ _ _ _ _ _ H) as (_ & _ & _ & out & f & _ & Hf & _).
  destruct (hide_msg_stored _ _ _ _ _ _ _ H Hf) as (o & Ho & He & _ & _ & ->).
  exists o. do 2 (split; [done|]).
  rewrite reveal_msg_stored by done. unfold try_decrypt.
  destruct (decrypt _ _); eauto.
Qed.

Lemma reveal_accepts_hidden_witness :
  let d := sample_store (flat_image 4 4 (200, 100, 51)) in
  let out0 := mkPath "/sdcard/Pictures" "stego.txt" in
  let d' := (hide_msg sample_in out0 "hi" "pw" d).2 in
  exists out,
    out_path out0 = Ok out /\ image_ext out = true /\
    ((exists s, reveal_msg out "other" d' = Ok s) \/
     (exists cause, reveal_msg out "other" d' = Raise (DecryptionFailed cause))).
Proof.
  intros d out0 d'.
  refine (reveal_accepts_hidden sample_in out0 "hi" "pw" d d' "other" _ _).
  - apply pair_from_fst. vm_compute. reflexivity.
  - discriminate.
Defined.

(** ** The size of the change *)





(** ** Embedding twice *)



Lemma near_fact (c : Z) (b : bool) :
  is_byte c ->
  let c' := Z.lor (Z.land c (Z.lnot 1)) (Z.b2z b) in
  is_byte c' /\ Z.abs (c' - c) <= 1.
Proof.
  intros Hc.
  assert (H : near_ok c = true)
    by (apply (below_forallb near_ok 256); [by vm_compute|done]).
  unfold near_ok in H. rewrite forallb_forall in H.
  assert (Hin : In b [true; false]) by (destruct b; simpl; auto).
  apply H in Hin. cbv zeta in Hin.
  apply andb_prop in Hin as [Hin _]. apply andb_prop in Hin as [Hin Ha].
  apply andb_prop in Hin as [H0 H1]. unfold is_byte. cbv zeta. lia.
Qed.

Lemma embed_channel_near (bits : list bool) (j : nat) (c : Z) :
  is_byte c ->
  is_byte (embed_channel bits j c) /\ Z.abs (embed_channel bits j c - c) <= 1.
Proof.
  intros Hc. unfold embed_channel. destruct (_ <? _)%nat.
  - by apply near_fact.
  - split; [done|]. lia.
Qed.

(** X10. A successful [hide_msg] keeps every channel a byte and moves it by
    at most one. *)
Theorem embedding_is_slight (img_in img_out : Path) (msg pwd : string)
    (d d' : gmap Path file) (f : file) :
  hide_msg img_in img_out msg pwd d = (Ok tt, d') ->
  d !! img_in = Some f ->
  wf_image (raster f) ->
  exists out px',
    out_path img_out = Ok out /\
    d' !! out = Some (File PNG (Image (width (raster f)) (height (raster f)) px')) /\
    forall i r g b, pixels (raster f) !! i = Some (r, g, b) ->
      is_byte r -> is_byte g -> is_byte b ->
      exists r' g' b', px' !! i = Some (r', g', b') /\
        is_byte r' /\ is_byte g' /\ is_byte b' /\
        Z.abs (r' - r) <= 1 /\ Z.abs (g' - g) <= 1 /\ Z.abs (b' - b) <= 1.
Proof.
  intros H Hf Hwf.
  destruct (hide_msg_stored _ _ _ _ _ _ _ H Hf) as (out & Ho & _ & _ & _ & ->).
  eexists out, _. split; [done|]. split; [by rewrite lookup_insert_eq|].
  intros i r g b Hi Hr Hg Hb.
  rewrite (hide_rows_spec _ _ _ _ ltac:(unfold wf_image in Hwf; done)).
  eexists _, _, _.
  split; [rewrite list_lookup_imap; unfold pixel in *; by rewrite Hi|].
  cbn [fst snd].
  destruct (embed_channel_near (frame_bits (encrypt msg pwd)) (3 * i) r Hr)
    as [Br Nr].
  destruct (embed_channel_near (frame_bits (encrypt msg pwd)) (3 * i + 1) g Hg)
    as [Bg Ng].
  destruct (embed_channel_near (frame_bits (encrypt msg pwd)) (3 * i + 2) b Hb)
    as [Bb Nb].
  split; [exact Br|]. split; [exact Bg|]. split; [exact Bb|].
  split; [exact Nr|]. split; [exact Ng|exact Nb].
Qed.

Lemma embedding_is_slight_witness :
  let f := File PNG (flat_image 4 4 (200, 100, 51)) in
  let d := sample_store (raster f) in
  let d' := (hide_msg sample_in sample_out "hi" "pw" d).2 in
  exists out px',
    out_path sample_out = Ok out /\
    d' !! out = Some (File PNG (Image (width (raster f)) (height (raster f)) px')) /\
    forall i r g b, pixels (raster f) !! i = Some (r, g, b) ->
      is_byte r -> is_byte g -> is_byte b ->
      exists r' g' b', px' !! i = Some (r', g', b') /\
        is_byte r' /\ is_byte g' /\ is_byte b' /\
        Z.abs (r' - r) <= 1 /\ Z.abs (g' - g) <= 1 /\ Z.abs (b' - b) <= 1.
Proof.
  intros f d d'.
  refine (embedding_is_slight sample_in sample_out "hi" "pw" d d' f _ _ _).
  - apply pair_from_fst. vm_compute. reflexivity.
  - vm_compute. reflexivity.
  - reflexivity.
Defined.

(** ** Images that nothing was hidden in *)

(** X11. An image whose low bits 1 to 8 (the second to the ninth channel in
    raster order) are zero is taken to hold the empty message: with any
    passphrase that is not empty, [reveal_msg] returns the empty text and no
    error. *)
Theorem reveal_leading_zero_bits (img : Path) (pwd : string)
    (d : gmap Path file) (f : file) :
  image_ext img = true -> pwd <> "" -> d !! img = Some f ->
  wf_image (raster f) ->
  (forall i, (1 <= i <= 8)%nat -> lsb_stream (raster f) !! i = Some false) ->
  reveal_msg img pwd d = Ok "".
Proof.
  intros He Hp Hf Hwf Hz. unfold reveal_msg, Image_open. rewrite He, Hf. simpl.
  destruct (decide (pwd = "")); [done|].
  rewrite extract_scan by done. unfold lsb_stream in Hz.
  set (S := flat_map lsb3 (pixels (raster f))) in *.
  assert (Hlen : (9 <= length S)%nat).
  { pose proof (Hz 8%nat ltac:(lia)) as H8. apply lookup_lt_Some in H8. lia. }
  assert (Hpx : (3 <= length (pixels (raster f)))%nat).
  { pose proof (lsb_stream_length 0 0 (pixels (raster f))) as Hl.
    unfold lsb_stream in Hl. simpl in Hl. fold S in Hl. lia. }
  rewrite (scan_stop _ [] 2).
  - cbn [fst app length]. fold S.
    destruct S as [|b0 S']; [simpl in Hlen; lia|]. reflexivity.
  - intros q Hq. cbn [app]. apply terminated_short. rewrite length_take. lia.
  - lia.
  - cbn [app]. fold S. apply terminated_true.
    + rewrite length_take. lia.
    + intros i Hi. rewrite length_take in Hi.
      rewrite lookup_take_lt by lia. apply Hz. lia.
Qed.

Lemma reveal_leading_zero_bits_witness :
  let f := File PNG (Image 2 2 [(255, 0, 2); (4, 6, 8); (10, 12, 14); (1, 1, 1)]) in
  reveal_msg sample_in "pw" (sample_store (raster f)) = Ok "".
Proof.
  intros f.
  refine (reveal_leading_zero_bits sample_in "pw" (sample_store (raster f)) f
            _ _ _ _ _).
  - vm_compute. reflexivity.
  - discriminate.
  - vm_compute. reflexivity.
  - reflexivity.
  - intros i Hi.
    assert (Hi' : (i = 1 \/ i = 2 \/ i = 3 \/ i = 4 \/ i = 5 \/ i = 6 \/
                   i = 7 \/ i = 8)%nat) by lia.
    destruct Hi' as [-> | [-> | [-> | [-> | [-> | [-> | [-> | ->]]]]]]];
      vm_compute; reflexivity.
Defined.

(** ** The errors of [reveal_msg] *)



(** ** The desktop variant *)



(** X13. Past its argument checks, the desktop [reveal_msg] raises nothing
    but "Decryption failed": an exception of the library is wrapped, and
    so is its own "No hidden data found in image!" when the library finds
    nothing. *)
Theorem desktop_reveal_wraps
    (lsb_reveal : Path -> gmap Path file -> result (option (list Z)))
    (img : Path) (pwd : string) (d : gmap Path file) :
  image_ext img = true -> pwd <> "" ->
  (forall e, lsb_reveal img d = Raise e ->
     Desktop.reveal_msg lsb_reveal img pwd d = Raise (DecryptionFailed e)) /\
  (lsb_reveal img d = Ok None ->
     Desktop.reveal_msg lsb_reveal img pwd d =
     Raise (DecryptionFailed (ValueError "No hidden data found in image!"))) /\
  (forall e, Desktop.reveal_msg lsb_reveal img pwd d = Raise e ->
     exists cause, e = DecryptionFailed cause).
Proof.
  intros Hs Hp. unfold Desktop.reveal_msg. rewrite Hs. simpl.
  destruct (decide (pwd = "")); [done|].
  split; [by intros e ->|]. split; [by intros ->|].
  intros e. destruct (bind _ _); [done|]. intros [= <-]. eauto.
Qed.

Lemma desktop_reveal_wraps_witness :
  let lsb_reveal := fun (_ : Path) (_ : gmap Path file) =>
                      Ok (A := option (list Z)) None in
  Desktop.reveal_msg lsb_reveal sample_in "pw" ∅ =
  Raise (DecryptionFailed (ValueError "No hidden data found in image!")).
Proof.
  intros lsb_reveal.
  refine (proj1 (proj2 (desktop_reveal_wraps lsb_reveal sample_in "pw" ∅ _ _)) _).
  - vm_compute. reflexivity.
  - discriminate.
  - reflexivity.
Defined.

(** ** [build_cmd] *)

Example lower_samples :
  map (fun s => string_of_list_ascii (lower (list_ascii_of_string s)))
      ["MP3"; "mKv"; "OGG_low"; "x"] = ["mp3"; "mkv"; "ogg_low"; "x"] /\
  string_of_list_ascii (lower ["m"%char; "226"%char; "132"%char; "170"%char; "v"%char])
    = "mkv".
Proof. split; reflexivity. Qed.

Lemma audio_presets_table_facts :
  Forall (fun kv : string * list string =>
            head kv.2 = Some "-vn" /\ VIDEO_PRESETS !! kv.1 = None /\
            kv.1 ∉ IMAGE_EXTS) AUDIO_PRESETS_table.
Proof. apply (bool_decide_unpack _). by vm_compute. Qed.

Lemma video_presets_table_facts :
  Forall (fun kv : string * list string => kv.1 ∉ IMAGE_EXTS)
         VIDEO_PRESETS_table.
Proof. apply (bool_decide_unpack _). by vm_compute. Qed.

Lemma audio_presets_drop_video (e : string) (preset : list string) :
  AUDIO_PRESETS !! e = Some preset ->
  head preset = Some "-vn" /\ VIDEO_PRESETS !! e = None /\ e ∉ IMAGE_EXTS.
Proof.
  intros H. apply elem_of_list_to_map_2 in H.
  by apply (proj1 (Forall_forall _ _) audio_presets_table_facts) in H.
Qed.

Lemma video_presets_no_image (e : string) (preset : list string) :
  VIDEO_PRESETS !! e = Some preset -> e ∉ IMAGE_EXTS.
Proof.
  intros H. apply elem_of_list_to_map_2 in H.
  by apply (proj1 (Forall_forall _ _) video_presets_table_facts) in H.
Qed.

(** X15. The command of [build_cmd] is always
    [ffmpeg -y -i <source> <preset> <destination>], where the preset is
    looked up under the lower-cased extension of the destination, in the
    audio table first: an audio preset starts with "-vn" (the video stream
    is dropped), and there are no options at all for an image extension or
    an extension in neither table. *)
Theorem build_cmd_shape (path_str : Path -> string) (src dst : Path) :
  let e := string_of_list_ascii
             (lower (lstrip dot (list_ascii_of_string (suffix dst)))) in
  exists preset,
    build_cmd path_str src dst =
      ["ffmpeg"; "-y"; "-i"; path_str src] ++ preset ++ [path_str dst] /\
    (is_Some (AUDIO_PRESETS !! e) ->
       AUDIO_PRESETS !! e = Some preset /\ head preset = Some "-vn") /\
    (AUDIO_PRESETS !! e = None -> is_Some (VIDEO_PRESETS !! e) ->
       VIDEO_PRESETS !! e = Some preset) /\
    (e ∈ IMAGE_EXTS \/ (AUDIO_PRESETS !! e = None /\ VIDEO_PRESETS !! e = None) ->
       preset = []).
Proof.
  intros e. unfold build_cmd. fold e.
  destruct (AUDIO_PRESETS !! e) as [pa|] eqn:Ha.
  - destruct (audio_presets_drop_video e pa Ha) as (Hvn & _ & Hni).
    exists pa. split; [by rewrite <- app_assoc|].
    split; [done|]. split; [done|]. intros [Hi|[? _]]; done.
  - destruct (VIDEO_PRESETS !! e) as [pv|] eqn:Hv.
    + pose proof (video_presets_no_image e pv Hv) as Hni.
      exists pv. split; [by rewrite <- app_assoc|].
      split; [by intros [? ?]|]. split; [done|]. intros [Hi|[_ ?]]; done.
    + exists []. split; [done|]. split; [by intros [? ?]|].
      split; [by intros _ [? ?]|]. done.
Qed.

Lemma build_cmd_shape_witness :
  let dst := mkPath "/sdcard/Music" "song.MP3" in
  exists preset,
    build_cmd name sample_in dst =
      ["ffmpeg"; "-y"; "-i"; "cat.png"] ++ preset ++ ["song.MP3"] /\
    AUDIO_PRESETS !! "mp3" = Some preset /\ head preset = Some "-vn".
Proof.
  intros dst.
  destruct (build_cmd_shape name sample_in dst) as (preset & Hc & Ha & _).
  exists preset. split; [exact Hc|]. apply Ha. by eexists.
Defined.
